(** * PIRService / instagram_follower.py: the follow cache and the follower bot

    A shallow embedding of [src/instagram_follower.py] (the version with the
    persistent [FollowCache]) and the properties its specification states.

    - The in-memory cache [self.cache : Dict[str, dict]] is a [gmap string entry];
      a cached record is a JSON object whose keys may be missing, so every field
      of [entry] is optional.
    - The mutable state of the process (the cache, the cache file and the
      sequence of calls made to the outside world) is threaded explicitly as a
      [World].
    - The outside world (the instagrapi client, the clock, the file system,
      the random generator) is an [Env] of oracles that answer from the
      history of the interaction, so that the answers may change from one
      call to the next.
    - The numbers of the configuration that may be floats (the delay bounds)
      and the random draws are rationals; rounding is not modelled. *)

From Stdlib Require Import ZArith QArith Lqa.
From stdpp Require Import gmap strings pretty list fin_maps.

Open Scope string_scope.
Open Scope Z_scope.

(** ** Data model *)

(** One value of [self.cache]: the dict written by [add_user], or whatever
    object [json.load] found in the cache file. *)
Record entry := Entry {
  username : option string;
  status : option string;
  source : option string;
  timestamp : option string;
  attempts : option Z
}.

(** [str(user_id)] for a Python int: its decimal representation. *)
Definition str (user_id : Z) : string := pretty user_id.

(** What [client.user_follow] can do: it returns a bool, raises
    [PleaseWaitFewMinutes], raises another [ClientError], or raises an
    exception that is no [ClientError], which [follow_user] does not catch. *)
Inductive follow_outcome :=
| FollowReturned (result : bool)
| FollowPleaseWaitFewMinutes
| FollowClientError
| FollowOtherException.

(** The attributes of [client.user_info(...)] that the bot reads. *)
Record UserInfo := {
  pk : Z;
  info_username : string;
  follower_count : Z;
  is_private : bool;
  is_business : bool;
  following : bool
}.

Inductive resolve_outcome :=
| ResolveOk (user_id : Z)
| ResolveUserNotFound
| ResolveError.

Inductive info_outcome :=
| InfoOk (user_info : UserInfo)
| InfoError.

(** [client.user_followers] returns a dict from follower id to a short record,
    iterated in order; only the user name of the short record is read. *)
Inductive followers_outcome :=
| FollowersOk (followers : list (Z * string))
| FollowersUserNotFound
| FollowersError.

(** [_save_cache]: [open(..., 'w')] may fail (file untouched) and [json.dump]
    may fail after the file was truncated (no parsable snapshot is left). *)
Inductive save_outcome := SaveOk | SaveOpenFailed | SaveDumpFailed.

(** The calls made to the outside world, newest first in a trace. *)
Inductive event :=
| EvLogin
| EvResolve (name : string)
| EvFollowers (user_id : Z) (amount : Z)
| EvUserInfo (user_id : Z)
| EvFollow (user_id : Z) (outcome : follow_outcome)
| EvSleep (seconds : Z)
| EvDelay
| EvSave (snapshot : gmap string entry) (outcome : save_outcome)
| EvLogCleared (count : Z).

Record Env := {
  now : list event → string;
  save_result : list event → save_outcome;
  login_result : list event → bool;
  user_id_from_username : list event → string → resolve_outcome;
  user_info : list event → Z → info_outcome;
  user_followers : list event → Z → Z → followers_outcome;
  user_follow : list event → Z → follow_outcome;
  random : list event → Q
}.

(** [cache] is [FollowCache.cache]; [disk] is the content of the cache file
    ([None] when the file is missing or does not parse). *)
Record World := {
  cache : gmap string entry;
  disk : option (gmap string entry);
  trace : list event
}.

Definition emit (e : event) (w : World) : World :=
  {| cache := cache w; disk := disk w; trace := e :: trace w |}.

Definition set_cache (m : gmap string entry) (w : World) : World :=
  {| cache := m; disk := disk w; trace := trace w |}.

(** ** FollowCache *)

Module FollowCache.

Definition _load_cache (file : option (gmap string entry)) : gmap string entry :=
  default ∅ file.

Definition _save_cache (env : Env) (w : World) : World :=
  let r := save_result env (trace w) in
  {| cache := cache w;
     disk := match r with
             | SaveOk => Some (cache w)
             | SaveOpenFailed => disk w
             | SaveDumpFailed => None
             end;
     trace := EvSave (cache w) r :: trace w |}.

Definition is_processed (user_id : Z) (w : World) : bool :=
  bool_decide (is_Some (cache w !! str user_id)).

Definition get_user (user_id : Z) (w : World) : option entry :=
  cache w !! str user_id.

(** [self.cache.get(str(user_id), {}).get("attempts", 0)] *)
Definition prior_attempts (m : gmap string entry) (user_id : Z) : Z :=
  default 0 (m !! str user_id ≫= attempts).

Definition add_user (env : Env) (user_id : Z) (uname st src : string)
    (w : World) : World :=
  let e := {| username := Some uname;
              status := Some st;
              source := Some src;
              timestamp := Some (now env (trace w));
              attempts := Some (prior_attempts (cache w) user_id + 1) |} in
  _save_cache env (set_cache (<[str user_id := e]> (cache w)) w).

(** The dict built by [get_stats]. *)
Record Stats := {
  total : Z;
  followed : Z;
  failed : Z;
  skipped : Z;
  already_following : Z
}.

(** [if status in stats: stats[status] += 1]; the keys of [stats] are the
    five of the dict literal. *)
Definition bump (st : string) (s : Stats) : Stats :=
  if decide (st = "total") then
    {| total := total s + 1; followed := followed s; failed := failed s;
       skipped := skipped s; already_following := already_following s |}
  else if decide (st = "followed") then
    {| total := total s; followed := followed s + 1; failed := failed s;
       skipped := skipped s; already_following := already_following s |}
  else if decide (st = "failed") then
    {| total := total s; followed := followed s; failed := failed s + 1;
       skipped := skipped s; already_following := already_following s |}
  else if decide (st = "skipped") then
    {| total := total s; followed := followed s; failed := failed s;
       skipped := skipped s + 1; already_following := already_following s |}
  else if decide (st = "already_following") then
    {| total := total s; followed := followed s; failed := failed s;
       skipped := skipped s; already_following := already_following s + 1 |}
  else s.

Definition get_stats (w : World) : Stats :=
  map_fold (λ _ user_data stats, bump (default "unknown" (status user_data)) stats)
    {| total := Z.of_nat (size (cache w)); followed := 0; failed := 0;
       skipped := 0; already_following := 0 |}
    (cache w).

(** What a Python call hands back when the claim is about the returned value. *)
Inductive retval := RNone | RInt (n : Z).

(** [data.get("status") == "failed"] *)
Definition is_failed (user_data : entry) : Prop :=
  status user_data = Some "failed".

Definition clear_failed (env : Env) (w : World) : retval * World :=
  let to_remove :=
    (filter (λ kv, is_failed kv.2) (map_to_list (cache w))).*1 in
  let w1 := set_cache (foldl (λ m uid, delete uid m) (cache w) to_remove) w in
  let w2 := _save_cache env w1 in
  (RNone, emit (EvLogCleared (Z.of_nat (length to_remove))) w2).

End FollowCache.

(** ** InstagramFollowerBot *)

(** [config["settings"]]: [min_followers] and [max_followers] are read with
    [settings.get] and a default, the two flags with [settings.get] and
    truthiness; the two delay bounds are read with an index, which raises
    [KeyError] when the key is missing. *)
Record Settings := {
  min_followers : option Z;
  max_followers : option Z;
  skip_private_accounts : bool;
  skip_business_accounts : bool;
  max_followers_to_follow : Z;
  delay_between_follows_min : option Q;
  delay_between_follows_max : option Q
}.

Record Config := {
  specific_accounts_to_follow : list string;
  target_accounts : list string;
  settings : Settings
}.

(** A Python call either returns or raises; every exception raised below is
    caught by an [except Exception] of a caller, which does not look at it. *)
Inductive res (A : Type) :=
| Ret (a : A)
| Raise.
Arguments Ret {A} a.
Arguments Raise {A}.

Module InstagramFollowerBot.

Import FollowCache.

Definition login (env : Env) (w : World) : bool * World :=
  (login_result env (trace w), emit EvLogin w).

(** [random.uniform(a, b)] is [a + (b - a) * random.random()]. *)
Definition uniform (env : Env) (h : list event) (a b : Q) : Q :=
  (a + (b - a) * random env h)%Q.

(** [_delay]: a [KeyError] when a delay bound is not configured, and the
    [ValueError] of [time.sleep] when the delay drawn is negative; otherwise
    the pause is taken ([EvDelay]; its duration is not recorded). *)
Definition _delay (env : Env) (st : Settings) (w : World) : res unit * World :=
  match delay_between_follows_min st, delay_between_follows_max st with
  | Some min_delay, Some max_delay =>
      let delay := uniform env (trace w) min_delay max_delay in
      if Qle_bool 0 delay then (Ret (), emit EvDelay w) else (Raise, w)
  | _, _ => (Raise, w)
  end.

(** [cached['status']] inside the log message of a skip: a [KeyError] when the
    cached record has no status. *)
Definition cached_status (user_id : Z) (w : World) : res string :=
  match get_user user_id w ≫= status with
  | Some st => Ret st
  | None => Raise
  end.

Definition _should_follow_user (env : Env) (st : Settings) (ui : UserInfo)
    (src : string) (w : World) : res bool * World :=
  let user_id := pk ui in
  let uname := info_username ui in
  if is_processed user_id w then
    match cached_status user_id w with
    | Ret _ => (Ret false, w)
    | Raise => (Raise, w)
    end
  else if bool_decide (follower_count ui < default 0 (min_followers st)) then
    (Ret false, add_user env user_id uname "skipped" src w)
  else if match max_followers st with
          | Some m => bool_decide (follower_count ui > m)
          | None => false
          end then
    (Ret false, add_user env user_id uname "skipped" src w)
  else if skip_private_accounts st && is_private ui then
    (Ret false, add_user env user_id uname "skipped" src w)
  else if skip_business_accounts st && is_business ui then
    (Ret false, add_user env user_id uname "skipped" src w)
  else (Ret true, w).

(** An exception of [client.user_follow] that is no [ClientError] leaves
    [follow_user] before any [add_user]. *)
Definition follow_user (env : Env) (user_id : Z) (uname src : string)
    (w : World) : res bool * World :=
  let r := user_follow env (trace w) user_id in
  let w1 := emit (EvFollow user_id r) w in
  match r with
  | FollowReturned true =>
      (Ret true, add_user env user_id uname "followed" src w1)
  | FollowReturned false =>
      (Ret false, add_user env user_id uname "failed" src w1)
  | FollowPleaseWaitFewMinutes =>
      (Ret false, emit (EvSleep 300) (add_user env user_id uname "failed" src w1))
  | FollowClientError =>
      (Ret false, add_user env user_id uname "failed" src w1)
  | FollowOtherException => (Raise, w1)
  end.

(** The [for username in accounts] loop of [follow_specific_accounts], with
    [followed_count] as an accumulator. Every exception raised in a turn is
    caught by its [except] clauses, and the loop goes on with the next name:
    after [followed_count += 1] when it is [_delay] that raised. *)
Fixpoint specific_loop (env : Env) (st : Settings) (accounts : list string)
    (followed_count : Z) (w : World) : Z * World :=
  match accounts with
  | [] => (followed_count, w)
  | uname :: rest =>
      let w1 := emit (EvResolve uname) w in
      match user_id_from_username env (trace w) uname with
      | ResolveUserNotFound | ResolveError =>
          specific_loop env st rest followed_count w1
      | ResolveOk user_id =>
          if is_processed user_id w1 then
            (* [continue], or a [KeyError] caught by [except Exception] *)
            specific_loop env st rest followed_count w1
          else
            let w2 := emit (EvUserInfo user_id) w1 in
            match user_info env (trace w1) user_id with
            | InfoError => specific_loop env st rest followed_count w2
            | InfoOk ui =>
                if following ui then
                  specific_loop env st rest followed_count
                    (add_user env user_id uname "already_following" "specific" w2)
                else
                  match follow_user env user_id uname "specific" w2 with
                  | (Ret true, w3) =>
                      specific_loop env st rest (followed_count + 1)
                        (_delay env st w3).2
                  | (_, w3) => specific_loop env st rest followed_count w3
                  end
            end
      end
  end.

Definition follow_specific_accounts (env : Env) (st : Settings)
    (accounts : list string) (w : World) : Z * World :=
  specific_loop env st accounts 0 w.

(** The [for follower_id, follower_info in followers.items()] loop of
    [follow_account_followers]; [Raise] is an exception that leaves the loop
    (the [KeyError] of the quick cache check, outside the inner [try]). An
    exception raised inside the inner [try] (by [client.user_info],
    [_should_follow_user], [follow_user] or [_delay]) is caught there and the
    loop goes on with the next follower. *)
Fixpoint followers_loop (env : Env) (st : Settings) (target_username : string)
    (max_to_follow : Z) (followers : list (Z * string))
    (followed_count : Z) (w : World) : res Z * World :=
  match followers with
  | [] => (Ret followed_count, w)
  | (follower_id, follower_name) :: rest =>
      if bool_decide (followed_count >= max_to_follow) then (Ret followed_count, w)
      else if is_processed follower_id w then
        match cached_status follower_id w with
        | Ret _ => followers_loop env st target_username max_to_follow rest followed_count w
        | Raise => (Raise, w)
        end
      else
        let w1 := emit (EvUserInfo follower_id) w in
        match user_info env (trace w) follower_id with
        | InfoError =>
            followers_loop env st target_username max_to_follow rest followed_count w1
        | InfoOk full_info =>
            if following full_info then
              followers_loop env st target_username max_to_follow rest followed_count
                (add_user env follower_id follower_name "already_following"
                   target_username w1)
            else
              match _should_follow_user env st full_info target_username w1 with
              | (Ret true, w2) =>
                  match follow_user env follower_id follower_name
                          target_username w2 with
                  | (Ret true, w3) =>
                      followers_loop env st target_username max_to_follow rest
                        (followed_count + 1) (_delay env st w3).2
                  | (_, w3) =>
                      followers_loop env st target_username max_to_follow rest
                        followed_count w3
                  end
              | (_, w2) =>
                  followers_loop env st target_username max_to_follow rest
                    followed_count w2
              end
        end
  end.

Definition follow_account_followers (env : Env) (st : Settings)
    (target_username : string) (max_to_follow : option Z) (w : World)
    : Z * World :=
  let max_to_follow := default (max_followers_to_follow st) max_to_follow in
  let w1 := emit (EvResolve target_username) w in
  match user_id_from_username env (trace w) target_username with
  | ResolveUserNotFound | ResolveError => (0, w1)
  | ResolveOk user_id =>
      let fetch_amount := max_to_follow * 3 in
      let w2 := emit (EvFollowers user_id fetch_amount) w1 in
      match user_followers env (trace w1) user_id fetch_amount with
      | FollowersUserNotFound | FollowersError => (0, w2)
      | FollowersOk followers =>
          match followers_loop env st target_username max_to_follow followers 0 w2 with
          | (Ret followed_count, w3) => (followed_count, w3)
          | (Raise, w3) => (0, w3)
          end
      end
  end.

(** The [for target in target_accounts] loop of [run]. *)
Fixpoint targets_loop (env : Env) (st : Settings) (targets : list string)
    (total_followed : Z) (w : World) : Z * World :=
  match targets with
  | [] => (total_followed, w)
  | target :: rest =>
      let '(count, w1) := follow_account_followers env st target None w in
      targets_loop env st rest (total_followed + count) w1
  end.

(** [run], returning [total_followed] ([None] when the login fails). *)
Definition run (env : Env) (cfg : Config) (w : World) : option Z * World :=
  let '(ok, w0) := login env w in
  if negb ok then (None, w0)
  else
    let '(count, w1) :=
      match specific_accounts_to_follow cfg with
      | [] => (0, w0)
      | accounts => follow_specific_accounts env (settings cfg) accounts w0
      end in
    let '(total_followed, w2) :=
      targets_loop env (settings cfg) (target_accounts cfg) (0 + count) w1 in
    (Some total_followed, w2).

(** [show_stats] prints the five numbers of [get_stats]; the value here is
    what it prints. *)
Definition show_stats (w : World) : Stats := get_stats w.

Definition retry_failed (env : Env) (w : World) : retval * World :=
  clear_failed env w.

End InstagramFollowerBot.

(** ** The command line *)

(** The parsed arguments of [main] that it branches on. [--follow] takes one
    or more names ([None] when absent); [--config] selects the [Config]. *)
Record Args := {
  arg_target : option string;
  arg_follow : option (list string);
  arg_max : option Z;
  arg_stats : bool;
  arg_retry_failed : bool
}.

(** What [main] and [show_stats] print. *)
Inductive printed :=
| PrintFollowedSpecific (count : Z)
| PrintFollowedFrom (count : Z) (target : string)
| PrintTotalFollowed (total : Z)
| PrintCacheStatistics (stats : FollowCache.Stats).

(** [if args.follow], [if args.target]: an empty list and an empty string are
    false. *)
Definition given_follow (args : Args) : option (list string) :=
  match arg_follow args with
  | Some (uname :: accounts) => Some (uname :: accounts)
  | _ => None
  end.

Definition given_target (args : Args) : option string :=
  match arg_target args with
  | Some t => if decide (t = "") then None else Some t
  | None => None
  end.

(** [main], started on the machine state [w] (the cache file and the history
    so far): the bot is constructed, which loads the cache file. *)
Definition main (env : Env) (cfg : Config) (args : Args) (w : World)
    : list printed * World :=
  let w0 := {| cache := FollowCache._load_cache (disk w); disk := disk w;
               trace := trace w |} in
  if arg_stats args then
    ([PrintCacheStatistics (InstagramFollowerBot.show_stats w0)], w0)
  else if arg_retry_failed args then
    ([], (InstagramFollowerBot.retry_failed env w0).2)
  else
    let '(ok, w1) := InstagramFollowerBot.login env w0 in
    if negb ok then ([], w1)
    else
      let '(out1, total1, w2) :=
        match given_follow args with
        | Some accounts =>
            let '(count, w2) :=
              InstagramFollowerBot.follow_specific_accounts env (settings cfg)
                accounts w1 in
            ([PrintFollowedSpecific count], 0 + count, w2)
        | None => ([], 0, w1)
        end in
      let '(out2, total2, w3) :=
        match given_target args with
        | Some target =>
            let '(count, w3) :=
              InstagramFollowerBot.follow_account_followers env (settings cfg)
                target (arg_max args) w2 in
            ([PrintFollowedFrom count target], total1 + count, w3)
        | None => ([], total1, w2)
        end in
      match given_follow args, given_target args with
      | None, None => ((out1 ++ out2)%list, (InstagramFollowerBot.run env cfg w3).2)
      | _, _ =>
          ((out1 ++ out2 ++ [PrintTotalFollowed total2;
                             PrintCacheStatistics
                               (InstagramFollowerBot.show_stats w3)])%list, w3)
      end.

(** * Vocabulary of the statements *)

Import FollowCache InstagramFollowerBot.

(** ** Counting cached records by status *)

Definition status_or_unknown (user_data : entry) : string :=
  default "unknown" (status user_data).

(** The number of cached records whose status (["unknown"] when missing) is [s]. *)
Definition count_status (s : string) (m : gmap string entry) : Z :=
  Z.of_nat (size (filter (λ kv, status_or_unknown kv.2 = s) m)).

Definition add_counts (init : Stats) (m : gmap string entry) : Stats :=
  {| total := total init + count_status "total" m;
     followed := followed init + count_status "followed" m;
     failed := failed init + count_status "failed" m;
     skipped := skipped init + count_status "skipped" m;
     already_following := already_following init + count_status "already_following" m |}.

(** ** Sequences of [add_user] calls *)

(** The arguments of one call [add_user(user_id, username, status, source)]. *)
Record record_call := {
  call_user_id : Z;
  call_username : string;
  call_status : string;
  call_source : string
}.

Definition add_users (env : Env) (calls : list record_call) (w : World) : World :=
  foldl (λ w c, add_user env (call_user_id c) (call_username c)
                  (call_status c) (call_source c) w) w calls.

(** How many of the calls are for [user_id]. *)
Definition calls_for (user_id : Z) (calls : list record_call) : Z :=
  Z.of_nat (length (filter (λ c, call_user_id c = user_id) calls)).

(** ** Reading a trace *)

(** The users on which [client.user_follow] was called, newest first. *)
Definition follow_calls (t : list event) : list Z :=
  omap (λ e, match e with EvFollow user_id _ => Some user_id | _ => None end) t.

Definition is_success (e : event) : bool :=
  match e with EvFollow _ (FollowReturned true) => true | _ => false end.

(** The number of follow calls that returned [True]. *)
Definition successes (t : list event) : Z :=
  Z.of_nat (length (filter (λ e, is_success e = true) t)).

(** [respects_cap N n t], for the events [t] in the order they happened and
    [n] successful follows before them: every follow call of [t] is made
    while fewer than [N] follows have succeeded. *)
Fixpoint respects_cap (N n : Z) (t : list event) : Prop :=
  match t with
  | [] => True
  | e :: t' =>
      match e with
      | EvFollow _ _ => n < N
      | _ => True
      end ∧ respects_cap N (if is_success e then n + 1 else n) t'
  end.

(** [steps N n w n' w']: going from [w] to [w'], the follow calls respect the
    cap [N] when [n] follows had succeeded before, and [n'] is [n] plus the
    number of follow calls that succeeded on the way. *)
Definition steps (N n : Z) (w : World) (n' : Z) (w' : World) : Prop :=
  ∃ new : list event,
    trace w' = (new ++ trace w)%list ∧
    respects_cap N n (rev new) ∧
    n' = n + successes new.

(** ** Runs and restarts *)

(** The follow calls of the client end as [follow_user] expects: with a
    bool, or with a [ClientError] ([PleaseWaitFewMinutes] among them). *)
Definition follow_raises_client_errors_only (env : Env) : Prop :=
  ∀ h user_id, user_follow env h user_id ≠ FollowOtherException.

(** [advances env w w']: between [w] and [w'] follow was called only for
    users that had no record in [w]; no record is lost; when every save
    succeeds, the cache file holds the cache of [w'] unless nothing was
    written at all; and, when the follow calls raise client errors only,
    the users of the follow calls are distinct and all have a record in
    [w']. *)
Definition advances (env : Env) (w w' : World) : Prop :=
  ∃ new : list Z,
    follow_calls (trace w') = (new ++ follow_calls (trace w))%list ∧
    (∀ u, u ∈ new → is_processed u w = false) ∧
    (∀ k, is_Some (cache w !! k) → is_Some (cache w' !! k)) ∧
    ((∀ h, save_result env h = SaveOk) →
     disk w' = Some (cache w') ∨ (cache w' = cache w ∧ disk w' = disk w)) ∧
    (follow_raises_client_errors_only env →
     NoDup new ∧ ∀ u, u ∈ new → is_processed u w' = true).

(** A new process on the same cache file: [FollowCache.__init__] loads the
    file; the history of the outside world goes on. *)
Definition restart (w : World) : World :=
  {| cache := _load_cache (disk w); disk := disk w; trace := trace w |}.

(** ** The eligibility policy in the words of the specification *)

Inductive Verdict :=
| Accept
| RejectTooFewFollowers
| RejectTooManyFollowers
| RejectPrivate
| RejectBusiness
| RejectAlreadyProcessed
| RejectAlreadyFollowing.

(** The evaluation order of the specification, first matching rule first.
    A minimum that is not configured is 0; a maximum that is not configured
    is no bound. *)
Definition Evaluate (st : Settings) (in_ledger : bool) (candidate : UserInfo)
    : Verdict :=
  if in_ledger then RejectAlreadyProcessed
  else if following candidate then RejectAlreadyFollowing
  else if bool_decide (follower_count candidate < default 0 (min_followers st))
  then RejectTooFewFollowers
  else if match max_followers st with
          | Some maximum => bool_decide (maximum < follower_count candidate)
          | None => false
          end
  then RejectTooManyFollowers
  else if skip_private_accounts st && is_private candidate then RejectPrivate
  else if skip_business_accounts st && is_business candidate then RejectBusiness
  else Accept.

(** ** Assumptions on the cache and on the client *)

(** Every cached record has a status, as every record written by [add_user]
    has. *)
Definition ledger_ok (w : World) : Prop :=
  map_Forall (λ _ user_data, is_Some (status user_data)) (cache w).

(** [client.user_info(user_id)] answers with the profile of [user_id]. *)
Definition honest_profiles (env : Env) : Prop :=
  ∀ h user_id ui, user_info env h user_id = InfoOk ui → pk ui = user_id.

(** A follower that has no record in [w], whose profile can be fetched and is
    accepted by the policy, and on whom the follow call succeeds, whenever
    that is asked. *)
Definition will_be_followed (env : Env) (st : Settings) (w : World)
    (user_id : Z) : Prop :=
  is_processed user_id w = false ∧
  ∀ h, (∃ ui, user_info env h user_id = InfoOk ui ∧
              Evaluate st false ui = Accept) ∧
       user_follow env h user_id = FollowReturned true.

(** ** Concrete worlds and environments *)

Definition empty_world : World := {| cache := ∅; disk := None; trace := [] |}.

(** An environment in which every save succeeds, every user name resolves to
    user 1, every profile is an ordinary public account with 100 followers,
    every follow call succeeds and [random.random()] gives one half. *)
Definition friendly_env : Env := {|
  now := λ _, "2024-05-01T12:00:00";
  save_result := λ _, SaveOk;
  login_result := λ _, true;
  user_id_from_username := λ _ _, ResolveOk 1;
  user_info := λ _ uid,
    InfoOk {| pk := uid; info_username := "user"; follower_count := 100;
              is_private := false; is_business := false; following := false |};
  user_followers := λ _ _ _, FollowersOk [(1, "one"); (2, "two"); (3, "three")];
  user_follow := λ _ _, FollowReturned true;
  random := λ _, 0.5%Q
|}.

Definition record_with (st : string) : entry :=
  {| username := Some "user"; status := Some st; source := Some "specific";
     timestamp := Some "2024-05-01T12:00:00"; attempts := Some 1 |}.

(** The ledger of the purge scenario: 1 followed, 2 and 3 failed, 4 skipped. *)
Definition purge_world : World :=
  {| cache := <[str 1 := record_with "followed"]>
                (<[str 2 := record_with "failed"]>
                  (<[str 3 := record_with "failed"]>
                    (<[str 4 := record_with "skipped"]> ∅)));
     disk := None; trace := [] |}.

Definition sample_settings : Settings :=
  {| min_followers := Some 10; max_followers := Some 5000;
     skip_private_accounts := true; skip_business_accounts := true;
     max_followers_to_follow := 2;
     delay_between_follows_min := Some 30%Q;
     delay_between_follows_max := Some 60%Q |}.

(** The same account is listed twice, and it is also the first follower of
    the target account in [friendly_env]. *)
Definition sample_config : Config :=
  {| specific_accounts_to_follow := ["alice"; "alice"];
     target_accounts := ["carol"];
     settings := sample_settings |}.

(** [friendly_env], except that the service throttles every follow call. *)
Definition throttling_env : Env := {|
  now := now friendly_env;
  save_result := save_result friendly_env;
  login_result := login_result friendly_env;
  user_id_from_username := user_id_from_username friendly_env;
  user_info := user_info friendly_env;
  user_followers := user_followers friendly_env;
  user_follow := λ _ _, FollowPleaseWaitFewMinutes;
  random := random friendly_env
|}.

(** [friendly_env], except that no profile can be fetched. *)
Definition no_profile_env : Env := {|
  now := now friendly_env;
  save_result := save_result friendly_env;
  login_result := login_result friendly_env;
  user_id_from_username := user_id_from_username friendly_env;
  user_info := λ _ _, InfoError;
  user_followers := user_followers friendly_env;
  user_follow := user_follow friendly_env;
  random := random friendly_env
|}.

(** [friendly_env], except that every account is private. *)
Definition private_env : Env := {|
  now := now friendly_env;
  save_result := save_result friendly_env;
  login_result := login_result friendly_env;
  user_id_from_username := user_id_from_username friendly_env;
  user_info := λ _ uid,
    InfoOk {| pk := uid; info_username := "user"; follower_count := 100;
              is_private := true; is_business := false; following := false |};
  user_followers := user_followers friendly_env;
  user_follow := user_follow friendly_env;
  random := random friendly_env
|}.

(** [friendly_env], except that every follow call returns [False]. *)
Definition refusing_env : Env := {|
  now := now friendly_env;
  save_result := save_result friendly_env;
  login_result := login_result friendly_env;
  user_id_from_username := user_id_from_username friendly_env;
  user_info := user_info friendly_env;
  user_followers := user_followers friendly_env;
  user_follow := λ _ _, FollowReturned false;
  random := random friendly_env
|}.

(** An account with 3 followers: below the minimum of [sample_settings]. *)
Definition tiny_account : UserInfo :=
  {| pk := 5; info_username := "tiny"; follower_count := 3;
     is_private := false; is_business := false; following := false |}.

(** ** Vocabulary of the further properties *)

(** The four statuses the bot writes. *)
Definition known_status (s : string) : Prop :=
  s = "followed" ∨ s = "failed" ∨ s = "skipped" ∨ s = "already_following".

(** A record as one [add_user] call for a user without a record leaves it,
    with one of the four statuses. *)
Definition fresh_record (user_data : entry) : Prop :=
  attempts user_data = Some 1 ∧
  ∃ s, status user_data = Some s ∧ known_status s.

(** The cache is what loading the cache file gives. *)
Definition synced (w : World) : Prop := cache w = _load_cache (disk w).

(** The users whose profile was requested, newest first. *)
Definition profile_fetches (t : list event) : list Z :=
  omap (λ e, match e with EvUserInfo user_id => Some user_id | _ => None end) t.

(** The user names that were looked up, newest first. *)
Definition resolved_names (t : list event) : list string :=
  omap (λ e, match e with EvResolve name => Some name | _ => None end) t.

Definition count_events (P : event → bool) (t : list event) : Z :=
  Z.of_nat (length (filter (λ e, P e = true) t)).

Definition is_delay (e : event) : bool :=
  match e with EvDelay => true | _ => false end.

Definition is_cooldown (e : event) : bool :=
  match e with EvSleep seconds => bool_decide (seconds = 300) | _ => false end.

Definition is_throttled (e : event) : bool :=
  match e with EvFollow _ FollowPleaseWaitFewMinutes => true | _ => false end.

Definition is_follow (e : event) : bool :=
  match e with EvFollow _ _ => true | _ => false end.

Definition is_login (e : event) : bool :=
  match e with EvLogin => true | _ => false end.

(** [follow_user] returned [True]. *)
Definition returned_true (r : res bool) : bool :=
  match r with Ret true => true | _ => false end.

(** The pause of [_delay] can be taken: both delay bounds are configured and
    not negative, and [random.random()] answers within its range. *)
Definition pacing_ok (env : Env) (st : Settings) : Prop :=
  ∃ min_delay max_delay,
    delay_between_follows_min st = Some min_delay ∧
    delay_between_follows_max st = Some max_delay ∧
    (0 <= min_delay)%Q ∧ (0 <= max_delay)%Q ∧
    ∀ h, (0 <= random env h)%Q ∧ (random env h <= 1)%Q.

(** [proceeds paced w w']: what happened between [w] and [w'] is what a part
    of a run does. Records were only added, each of them a fresh record;
    profiles were requested only for users without a record in [w]; a
    cooldown was taken for every follow that was throttled, and no other; a
    pacing delay was taken for no more than the follows that succeeded, and
    for every one of them when [paced] holds; and the cache file, where it
    changed, holds a snapshot between the two caches or is unreadable. *)
Definition proceeds (paced : Prop) (w w' : World) : Prop :=
  ∃ new : list event,
    trace w' = (new ++ trace w)%list ∧
    cache w ⊆ cache w' ∧
    (∀ k e, cache w' !! k = Some e → cache w !! k = None → fresh_record e) ∧
    (∀ u, u ∈ profile_fetches new → is_processed u w = false) ∧
    count_events is_delay new ≤ successes new ∧
    (paced → count_events is_delay new = successes new) ∧
    count_events is_cooldown new = count_events is_throttled new ∧
    (∀ m, disk w' = Some m →
          disk w = Some m ∨ (cache w ⊆ m ∧ m ⊆ cache w')).

(** The three ways of following that [main] can take. *)
Inductive operation :=
| OpRun (cfg : Config)
| OpSpecific (st : Settings) (accounts : list string)
| OpFollowers (st : Settings) (target : string) (max_to_follow : option Z).

Definition op_settings (op : operation) : Settings :=
  match op with
  | OpRun cfg => settings cfg
  | OpSpecific st _ => st
  | OpFollowers st _ _ => st
  end.

Definition perform (env : Env) (op : operation) (w : World) : World :=
  match op with
  | OpRun cfg => (run env cfg w).2
  | OpSpecific st accounts => (follow_specific_accounts env st accounts w).2
  | OpFollowers st target max_to_follow =>
      (follow_account_followers env st target max_to_follow w).2
  end.

(** The states the program can be in: it starts without a cache file, and
    then follows in one of the three ways, clears the failed records, or is
    started again, each time against any outside world. *)
Inductive reachable : World → Prop :=
| reach_start : reachable empty_world
| reach_perform env op w : reachable w → reachable (perform env op w)
| reach_clear_failed env w : reachable w → reachable (clear_failed env w).2
| reach_restart w : reachable w → reachable (restart w).

(** [friendly_env], except that the login fails. *)
Definition locked_out_env : Env := {|
  now := now friendly_env;
  save_result := save_result friendly_env;
  login_result := λ _, false;
  user_id_from_username := user_id_from_username friendly_env;
  user_info := user_info friendly_env;
  user_followers := user_followers friendly_env;
  user_follow := user_follow friendly_env;
  random := random friendly_env
|}.

(** [friendly_env], except that no user name resolves. *)
Definition nobody_env : Env := {|
  now := now friendly_env;
  save_result := save_result friendly_env;
  login_result := login_result friendly_env;
  user_id_from_username := λ _ _, ResolveUserNotFound;
  user_info := user_info friendly_env;
  user_followers := user_followers friendly_env;
  user_follow := user_follow friendly_env;
  random := random friendly_env
|}.

(** [friendly_env], except that every follow call raises an exception that
    is no [ClientError]. *)
Definition crashing_env : Env := {|
  now := now friendly_env;
  save_result := save_result friendly_env;
  login_result := login_result friendly_env;
  user_id_from_username := user_id_from_username friendly_env;
  user_info := user_info friendly_env;
  user_followers := user_followers friendly_env;
  user_follow := λ _ _, FollowOtherException;
  random := random friendly_env
|}.

(** [sample_settings] without the upper delay bound. *)
Definition unpaced_settings : Settings :=
  {| min_followers := Some 10; max_followers := Some 5000;
     skip_private_accounts := true; skip_business_accounts := true;
     max_followers_to_follow := 2;
     delay_between_follows_min := Some 30%Q;
     delay_between_follows_max := None |}.

(** [friendly_env], except that every user name resolves to user 2. *)
Definition second_user_env : Env := {|
  now := now friendly_env;
  save_result := save_result friendly_env;
  login_result := login_result friendly_env;
  user_id_from_username := λ _ _, ResolveOk 2;
  user_info := user_info friendly_env;
  user_followers := user_followers friendly_env;
  user_follow := user_follow friendly_env;
  random := random friendly_env
|}.

(** * Properties *)

(** ** [get_stats] *)

Lemma count_status_empty s : count_status s ∅ = 0.
Proof. unfold count_status. by rewrite map_filter_empty, map_size_empty. Qed.

Lemma count_status_insert s i x (m : gmap string entry) :
  m !! i = None →
  count_status s (<[i:=x]> m) =
  count_status s m + (if decide (status_or_unknown x = s) then 1 else 0).
Proof.
  intros Hi. unfold count_status. case_decide as Hs.
  - rewrite map_filter_insert_True by done.
    rewrite map_size_insert_None; [lia|].
    apply map_lookup_filter_None. by left.
  - rewrite map_filter_insert_False by done.
    rewrite delete_id by done. lia.
Qed.

Lemma bump_add_counts init i x (m : gmap string entry) :
  m !! i = None →
  bump (status_or_unknown x) (add_counts init m) = add_counts init (<[i:=x]> m).
Proof.
  intros Hi. unfold add_counts. rewrite !count_status_insert by done.
  unfold bump. simpl.
  repeat case_decide; simplify_eq; f_equal; try lia; congruence.
Qed.

Lemma stats_fold init (m : gmap string entry) :
  map_fold (λ _ user_data stats, bump (status_or_unknown user_data) stats) init m
  = add_counts init m.
Proof.
  apply (map_fold_weak_ind (λ r m, r = add_counts init m)).
  - unfold add_counts. rewrite !count_status_empty. destruct init; simpl.
    f_equal; lia.
  - intros i x m' r Hi ->. by apply bump_add_counts.
Qed.

(** [get_stats] in closed form: the four status counters count the records
    with exactly that status, and [total] is the number of records plus the
    number of records whose status is the string ["total"]. *)
Lemma get_stats_closed_form w :
  get_stats w =
  {| total := Z.of_nat (size (cache w)) + count_status "total" (cache w);
     followed := count_status "followed" (cache w);
     failed := count_status "failed" (cache w);
     skipped := count_status "skipped" (cache w);
     already_following := count_status "already_following" (cache w) |}.
Proof. unfold get_stats. fold status_or_unknown. by rewrite stats_fold. Qed.

(** C10. [get_stats] does not report the number of records as [total] when a
    record carries the status ["total"]: [status in stats] also holds for the
    key ["total"], so the record is counted twice. After one [add_user] with
    that status into an empty cache there is one record, [total] is 2 and the
    four status counters are 0. *)
Theorem get_stats_total_counts_total_status env :
  let w := add_user env 7 "user" "total" "specific" empty_world in
  size (cache w) = 1%nat ∧
  total (get_stats w) = 2 ∧
  followed (get_stats w) = 0 ∧ failed (get_stats w) = 0 ∧
  skipped (get_stats w) = 0 ∧ already_following (get_stats w) = 0.
Proof. by vm_compute. Qed.

(** ** [clear_failed] *)

Lemma foldl_delete_lookup (m : gmap string entry) (l : list string) i :
  foldl (λ m uid, delete uid m) m l !! i
  = if decide (i ∈ l) then None else m !! i.
Proof.
  revert m. induction l as [|k l IH]; intros m; simpl.
  - done.
  - rewrite IH. destruct (decide (i = k)) as [->|Hne].
    + rewrite lookup_delete_eq, (decide_True _ _ (list_elem_of_here k l)).
      by case_decide.
    + rewrite lookup_delete_ne by done. destruct (decide (i ∈ l)) as [Hi|Hi].
      * rewrite decide_True; [done|]. by apply list_elem_of_further.
      * rewrite decide_False; [done|]. by intros [?|?]%elem_of_cons.
Qed.

Lemma clear_failed_cache env w :
  cache (clear_failed env w).2 = filter (λ kv, ¬ is_failed kv.2) (cache w).
Proof.
  unfold clear_failed; simpl. apply map_eq. intros i.
  rewrite foldl_delete_lookup. case_decide as Hi.
  - apply list_elem_of_fmap in Hi as [[k x] [-> [Hf Hx]%list_elem_of_filter]].
    apply elem_of_map_to_list in Hx. simpl in *.
    symmetry. apply map_lookup_filter_None. right. intros y Hy. simpl.
    rewrite Hx in Hy. simplify_eq. by intros Hn.
  - destruct (cache w !! i) as [x|] eqn:Hx.
    + symmetry. apply map_lookup_filter_Some. split; [done|]. simpl.
      intros Hf. apply Hi. apply list_elem_of_fmap. exists (i, x). split; [done|].
      apply list_elem_of_filter. split; [done|]. by apply elem_of_map_to_list.
    + symmetry. apply map_lookup_filter_None. by left.
Qed.

Lemma to_remove_length (m : gmap string entry) :
  length (filter (λ kv : string * entry, is_failed kv.2) (map_to_list m)).*1
  = size (filter (λ kv : string * entry, is_failed kv.2) m).
Proof.
  rewrite length_fmap, map_filter_alt, map_size_list_to_map; [done|].
  apply (sublist_NoDup _ (map_to_list m).*1).
  - apply NoDup_fst_map_to_list.
  - apply fmap_sublist, sublist_filter.
Qed.

Lemma size_filter_complement (P : string * entry → Prop)
    `{!∀ kv, Decision (P kv)} (m : gmap string entry) :
  (size (filter (λ kv, ¬ P kv) m) + size (filter P m))%nat = size m.
Proof.
  rewrite <-(map_filter_union_complement P m) at 3.
  rewrite map_size_disj_union by apply map_disjoint_filter_complement. lia.
Qed.

(** C3, as the code has it. [clear_failed] removes exactly the records whose
    status is ["failed"] and leaves every other record as it was; it then
    calls [_save_cache] on the result (which reaches the file when the write
    succeeds) and logs the number of records removed. It returns [None], not
    that number. From the ledger 1: followed, 2: failed, 3: failed,
    4: skipped it leaves exactly the records 1 and 4, and [get_stats] then
    reports a total of 2. *)
Theorem clear_failed_removes_failed_logs_count env w :
  let removed := filter (λ kv : string * entry, is_failed kv.2) (cache w) in
  let w' := (clear_failed env w).2 in
  cache w' = filter (λ kv, ¬ is_failed kv.2) (cache w) ∧
  (size (cache w') + size removed)%nat = size (cache w) ∧
  trace w' = EvLogCleared (Z.of_nat (size removed))
             :: EvSave (cache w') (save_result env (trace w)) :: trace w ∧
  (save_result env (trace w) = SaveOk → disk w' = Some (cache w')) ∧
  (clear_failed env w).1 = RNone ∧
  (∀ e1 e2 e3 e4,
     status e1 = Some "followed" → status e2 = Some "failed" →
     status e3 = Some "failed" → status e4 = Some "skipped" →
     cache w = <[str 1 := e1]> (<[str 2 := e2]> (<[str 3 := e3]> (<[str 4 := e4]> ∅))) →
     cache w' = <[str 1 := e1]> (<[str 4 := e4]> ∅) ∧ total (get_stats w') = 2).
Proof.
  intros removed w'. pose proof (clear_failed_cache env w) as Hc. fold w' in Hc.
  split_and!.
  - done.
  - rewrite Hc. apply size_filter_complement.
  - subst removed. rewrite <-to_remove_length. unfold w', clear_failed. simpl.
    done.
  - intros Hs. unfold w', clear_failed. simpl. by rewrite Hs.
  - done.
  - intros e1 e2 e3 e4 H1 H2 H3 H4 Hw.
    assert (cache w' = <[str 1 := e1]> (<[str 4 := e4]> ∅)) as Hw'.
    { rewrite Hc, Hw.
      rewrite map_filter_insert_True by (unfold is_failed; simpl; congruence).
      rewrite map_filter_insert_False by (unfold is_failed; simpl; tauto).
      rewrite delete_id by done.
      rewrite map_filter_insert_False by (unfold is_failed; simpl; tauto).
      rewrite delete_id by done.
      rewrite map_filter_insert_True by (unfold is_failed; simpl; congruence).
      by rewrite map_filter_empty. }
    split; [done|]. rewrite get_stats_closed_form, Hw'. simpl.
    rewrite !count_status_insert by done. rewrite count_status_empty.
    unfold status_or_unknown. rewrite H1, H4. simpl.
    done.
Qed.

(** The instance of C3 on the purge scenario, with every write succeeding. *)
Lemma clear_failed_removes_failed_logs_count_witness :
  let w' := (clear_failed friendly_env purge_world).2 in
  cache w' = <[str 1 := record_with "followed"]> (<[str 4 := record_with "skipped"]> ∅) ∧
  total (get_stats w') = 2 ∧
  disk w' = Some (cache w').
Proof.
  destruct (clear_failed_removes_failed_logs_count friendly_env purge_world)
    as (_ & _ & _ & Hdisk & _ & Hscenario).
  destruct (Hscenario (record_with "followed") (record_with "failed")
              (record_with "failed") (record_with "skipped"))
    as [Hc Ht]; try reflexivity.
  split; [exact Hc|]. split; [exact Ht|]. apply Hdisk. reflexivity.
Defined.

(** C3 as stated fails: in the purge scenario two records are removed, and
    the value returned is [None], not the integer 2. *)
Lemma clear_failed_does_not_return_count :
  size (cache purge_world) = 4%nat ∧
  size (cache (clear_failed friendly_env purge_world).2) = 2%nat ∧
  (clear_failed friendly_env purge_world).1 ≠ RInt 2.
Proof. split; [by vm_compute|]. split; [by vm_compute|]. by vm_compute. Qed.

(** ** [add_user] *)

Lemma str_inj a b : str a = str b → a = b.
Proof. unfold str. apply (inj pretty). Qed.

Lemma add_user_cache env user_id uname st src w :
  cache (add_user env user_id uname st src w) =
  <[str user_id :=
      {| username := Some uname; status := Some st; source := Some src;
         timestamp := Some (now env (trace w));
         attempts := Some (prior_attempts (cache w) user_id + 1) |}]> (cache w).
Proof. done. Qed.

Lemma add_user_lookup_other env user_id uname st src w other :
  other ≠ user_id →
  cache (add_user env user_id uname st src w) !! str other = cache w !! str other.
Proof.
  intros Hne. rewrite add_user_cache, lookup_insert_ne; [done|].
  intros Heq. by apply str_inj in Heq.
Qed.

Lemma add_users_app env pre post w :
  add_users env (pre ++ post) w = add_users env post (add_users env pre w).
Proof. unfold add_users. by rewrite foldl_app. Qed.

Lemma calls_for_cons user_id c calls :
  calls_for user_id (c :: calls) =
  (if decide (call_user_id c = user_id) then 1 else 0) + calls_for user_id calls.
Proof.
  unfold calls_for. rewrite filter_cons. case_decide; simpl; lia.
Qed.

Lemma calls_for_app user_id pre post :
  calls_for user_id (pre ++ post) = calls_for user_id pre + calls_for user_id post.
Proof. unfold calls_for. rewrite filter_app, length_app. lia. Qed.

Lemma calls_for_none user_id calls :
  Forall (λ c, call_user_id c ≠ user_id) calls → calls_for user_id calls = 0.
Proof.
  induction 1 as [|c calls Hc _ IH]; [done|].
  rewrite calls_for_cons, IH. by rewrite decide_False.
Qed.

(** Every call for [user_id] adds one to its attempt counter, and no other
    call touches it. *)
Lemma prior_attempts_add_users env user_id calls w :
  prior_attempts (cache (add_users env calls w)) user_id
  = prior_attempts (cache w) user_id + calls_for user_id calls.
Proof.
  revert w. induction calls as [|c calls IH]; intros w.
  - unfold calls_for. simpl. lia.
  - change (add_users env (c :: calls) w) with
      (add_users env calls
         (add_user env (call_user_id c) (call_username c) (call_status c)
            (call_source c) w)).
    rewrite IH, calls_for_cons. unfold prior_attempts at 1.
    case_decide as Hc.
    + subst user_id. rewrite add_user_cache, lookup_insert_eq. simpl. lia.
    + rewrite add_user_lookup_other by done. fold (prior_attempts (cache w) user_id).
      lia.
Qed.

Lemma add_users_lookup_other env user_id calls w :
  Forall (λ c, call_user_id c ≠ user_id) calls →
  cache (add_users env calls w) !! str user_id = cache w !! str user_id.
Proof.
  intros Hall. revert w. induction Hall as [|c calls Hc _ IH]; intros w; [done|].
  change (add_users env (c :: calls) w) with
    (add_users env calls
       (add_user env (call_user_id c) (call_username c) (call_status c)
          (call_source c) w)).
  rewrite IH. by apply add_user_lookup_other.
Qed.

(** A dict holds one value per key: the items with a given key are one. *)
Lemma one_item_per_key (m : gmap string entry) k e :
  m !! k = Some e →
  length (filter (λ kv : string * entry, kv.1 = k) (map_to_list m)) = 1%nat.
Proof.
  intros Hk. rewrite <-(map_to_list_delete m k e Hk).
  rewrite filter_cons_True by done. simpl. f_equal.
  destruct (filter _ (map_to_list (delete k m))) as [|[k' x] l] eqn:Hf; [done|].
  assert ((k', x) ∈ filter (λ kv : string * entry, kv.1 = k)
                      (map_to_list (delete k m))) as Hin.
  { rewrite Hf. apply list_elem_of_here. }
  apply list_elem_of_filter in Hin as [Hk' Hin]. simpl in Hk'. subst k'.
  apply elem_of_map_to_list in Hin. by rewrite lookup_delete_eq in Hin.
Qed.

(** C2. Take any sequence of [add_user] calls, from any cache, and a user
    that some call is for; let [last] be the last call for that user ([pre]
    the calls before it, [post] the calls after it, none for that user).
    Afterwards the cache holds exactly one record keyed by [str(user_id)];
    its user name, status and source are those of [last], its timestamp is
    the clock reading of [last], and its attempt counter is the counter found
    before the sequence (0 when the user had no record) plus the number of
    calls for that user: the number of calls, when the user was new. *)
Theorem add_user_is_upsert_counting_calls env w user_id
    (pre : list record_call) uname st src (post : list record_call) :
  Forall (λ c, call_user_id c ≠ user_id) post →
  let last := {| call_user_id := user_id; call_username := uname;
                 call_status := st; call_source := src |} in
  let calls := (pre ++ last :: post)%list in
  let w' := add_users env calls w in
  cache w' !! str user_id =
    Some {| username := Some uname; status := Some st; source := Some src;
            timestamp := Some (now env (trace (add_users env pre w)));
            attempts := Some (prior_attempts (cache w) user_id
                              + calls_for user_id calls) |} ∧
  length (filter (λ kv : string * entry, kv.1 = str user_id)
            (map_to_list (cache w'))) = 1%nat ∧
  1 ≤ calls_for user_id calls ∧
  (cache w !! str user_id = None →
   cache w' !! str user_id ≫= attempts = Some (calls_for user_id calls)).
Proof.
  intros Hpost last calls w'.
  assert (cache w' !! str user_id =
    Some {| username := Some uname; status := Some st; source := Some src;
            timestamp := Some (now env (trace (add_users env pre w)));
            attempts := Some (prior_attempts (cache w) user_id
                              + calls_for user_id calls) |}) as Hlookup.
  { unfold w', calls. rewrite add_users_app.
    change (add_users env (last :: post) (add_users env pre w)) with
      (add_users env post
         (add_user env user_id uname st src (add_users env pre w))).
    rewrite add_users_lookup_other by done.
    rewrite add_user_cache, lookup_insert_eq.
    rewrite prior_attempts_add_users, calls_for_app, calls_for_cons.
    rewrite (calls_for_none _ post) by done. simpl.
    rewrite decide_True by done. do 3 f_equal. lia. }
  split_and!.
  - done.
  - by eapply one_item_per_key.
  - unfold calls. rewrite calls_for_app, calls_for_cons. simpl.
    rewrite decide_True by done. unfold calls_for. lia.
  - intros Hnew. rewrite Hlookup. simpl. unfold prior_attempts.
    rewrite Hnew. simpl. done.
Qed.

(** Three calls for user 42 with a call for user 7 in between, into an empty
    cache: the record of 42 is that of the third call, with 3 attempts. *)
Lemma add_user_is_upsert_counting_calls_witness :
  let calls :=
    [ {| call_user_id := 42; call_username := "alice";
         call_status := "failed"; call_source := "specific" |};
      {| call_user_id := 7; call_username := "bob";
         call_status := "skipped"; call_source := "carol" |};
      {| call_user_id := 42; call_username := "alice";
         call_status := "failed"; call_source := "carol" |};
      {| call_user_id := 42; call_username := "alice2";
         call_status := "followed"; call_source := "dave" |} ] in
  cache (add_users friendly_env calls empty_world) !! str 42 ≫= attempts = Some 3 ∧
  cache (add_users friendly_env calls empty_world) !! str 42 ≫= status
    = Some "followed".
Proof.
  intros calls.
  destruct (add_user_is_upsert_counting_calls friendly_env empty_world 42
              (take 3 calls) "alice2" "followed" "dave" [])
    as (Hlookup & _ & _ & Hnew); [constructor|].
  split.
  - apply Hnew. reflexivity.
  - etrans; [exact (f_equal (λ o, o ≫= status) Hlookup)|]. reflexivity.
Defined.

(** ** Follow calls and the ledger across a run *)

Lemma is_processed_true user_id w :
  is_processed user_id w = true ↔ is_Some (cache w !! str user_id).
Proof. unfold is_processed. apply bool_decide_eq_true. Qed.

Lemma is_processed_false user_id w :
  is_processed user_id w = false ↔ cache w !! str user_id = None.
Proof.
  unfold is_processed. rewrite bool_decide_eq_false. symmetry.
  apply eq_None_not_Some.
Qed.

Lemma is_processed_add_user env user_id uname st src w :
  is_processed user_id (add_user env user_id uname st src w) = true.
Proof. apply is_processed_true. rewrite add_user_cache, lookup_insert_eq. eauto. Qed.

Lemma advances_refl env w : advances env w w.
Proof.
  exists []. split_and!; try done.
  - by intros u ?%elem_of_nil.
  - intros _. by right.
  - intros _. split; [constructor | by intros u ?%elem_of_nil].
Qed.

Lemma advances_trans env w1 w2 w3 :
  advances env w1 w2 → advances env w2 w3 → advances env w1 w3.
Proof.
  intros (new1 & Ht1 & Hin1 & Hmono1 & Hd1 & Hc1)
         (new2 & Ht2 & Hin2 & Hmono2 & Hd2 & Hc2).
  assert (∀ u, is_processed u w2 = false → is_processed u w1 = false) as Hback.
  { intros u Hf. apply is_processed_false. apply is_processed_false in Hf.
    apply eq_None_not_Some. intros Hs%Hmono1. by rewrite Hf in Hs; destruct Hs. }
  exists (new2 ++ new1)%list. split_and!.
  - by rewrite Ht2, Ht1, (assoc_L (++)).
  - intros u [Hu|Hu]%elem_of_app; [apply Hback|]; auto.
  - auto.
  - intros Hok. destruct (Hd2 Hok) as [?|[Hcache2 Hdk2]]; [by left|].
    destruct (Hd1 Hok) as [Hs|[Hcache1 Hdk1]].
    + left. by rewrite Hdk2, Hcache2.
    + right. split; congruence.
  - intros Hce. destruct (Hc1 Hce) as [Hnd1 Hp1], (Hc2 Hce) as [Hnd2 Hp2]. split.
    + apply NoDup_app. split_and!; [done| |done].
      intros u Hu2 Hu1. specialize (Hin2 u Hu2). specialize (Hp1 u Hu1).
      congruence.
    + intros u [Hu|Hu]%elem_of_app; [by apply Hp2|].
      apply is_processed_true, Hmono2. apply is_processed_true. by apply Hp1.
Qed.

Lemma advances_emit env e w :
  (∀ user_id r, e ≠ EvFollow user_id r) → advances env w (emit e w).
Proof.
  intros He. exists []. split_and!; try done.
  - simpl. destruct e; try done. by destruct (He user_id outcome).
  - by intros u ?%elem_of_nil.
  - intros _. by right.
  - intros _. split; [constructor | by intros u ?%elem_of_nil].
Qed.

Lemma advances_add_user env user_id uname st src w :
  advances env w (add_user env user_id uname st src w).
Proof.
  exists []. split_and!; try done.
  - by intros u ?%elem_of_nil.
  - intros k Hk. rewrite add_user_cache. rewrite lookup_insert.
    case_decide; [eauto | done].
  - intros Hok. left. unfold add_user, _save_cache. simpl. by rewrite Hok.
  - intros _. split; [constructor | by intros u ?%elem_of_nil].
Qed.

(** [follow_user], outcome by outcome: the follow call is made; unless it
    raised an exception that is no client error, the user is recorded. *)
Lemma follow_user_world env user_id uname src w :
  let r := user_follow env (trace w) user_id in
  let fu := follow_user env user_id uname src w in
  follow_calls (trace fu.2) = user_id :: follow_calls (trace w) ∧
  successes (trace fu.2)
    = successes (trace w) + (if returned_true fu.1 then 1 else 0) ∧
  returned_true fu.1 = is_success (EvFollow user_id r) ∧
  (r ≠ FollowOtherException →
   cache fu.2 = cache (add_user env user_id uname
                         (if returned_true fu.1 then "followed" else "failed")
                         src (emit (EvFollow user_id r) w)) ∧
   ((∀ h, save_result env h = SaveOk) → disk fu.2 = Some (cache fu.2))) ∧
  (r = FollowOtherException → fu = (Raise, emit (EvFollow user_id r) w)).
Proof.
  unfold follow_user, successes. simpl.
  destruct (user_follow env (trace w) user_id) as [[]| | |]; simpl;
    (split_and!; [done | rewrite ?filter_cons; simpl; try lia | done
                 | intros _; split; [done | intros Hok; by rewrite Hok]
                 | done]) || (split_and!; [done | rewrite ?filter_cons; simpl; try lia | done
                 | done | done]).
Qed.

Lemma advances_follow_user env user_id uname src w :
  is_processed user_id w = false →
  advances env w (follow_user env user_id uname src w).2.
Proof.
  intros Hnew.
  destruct (follow_user_world env user_id uname src w)
    as (Hf & _ & _ & Hrec & Hexc).
  assert (user_follow env (trace w) user_id = FollowOtherException ∨
          user_follow env (trace w) user_id ≠ FollowOtherException) as [Ho|Ho].
  { destruct (user_follow env (trace w) user_id); [right..|left]; done. }
  - rewrite (Hexc Ho) in *. exists [user_id]. split_and!.
    + done.
    + by intros u ->%list_elem_of_singleton.
    + done.
    + intros _. by right.
    + intros Hce. by destruct (Hce _ _ Ho).
  - destruct (Hrec Ho) as [Hc Hd]. exists [user_id]. split_and!.
    + done.
    + by intros u ->%list_elem_of_singleton.
    + intros k Hk. rewrite Hc, add_user_cache, lookup_insert.
      case_decide; [eauto | done].
    + intros Hok. left. by apply Hd.
    + intros _. split; [apply NoDup_singleton|].
      intros u ->%list_elem_of_singleton.
      apply is_processed_true. rewrite Hc, add_user_cache, lookup_insert_eq. eauto.
Qed.

Lemma advances_should_follow_user env st ui src w :
  advances env w (_should_follow_user env st ui src w).2.
Proof.
  unfold _should_follow_user.
  repeat (case_match; simpl; try apply advances_refl; try apply advances_add_user).
Qed.

Lemma advances_delay env st w : advances env w (_delay env st w).2.
Proof.
  unfold _delay. repeat (case_match; simpl; try apply advances_refl).
  by apply advances_emit.
Qed.

Lemma is_processed_emit user_id e w :
  is_processed user_id (emit e w) = is_processed user_id w.
Proof. done. Qed.

(** Go through the world in which [e], not a follow call, has just happened. *)
Ltac adv_emit e :=
  eapply (advances_trans _ _ (emit e _)); [by apply advances_emit|].

Lemma advances_specific_loop env st accounts n w :
  advances env w (specific_loop env st accounts n w).2.
Proof.
  revert n w. induction accounts as [|uname rest IH]; intros n w; simpl.
  - apply advances_refl.
  - adv_emit (EvResolve uname).
    destruct (user_id_from_username env (trace w) uname) as [user_id| |]; try apply IH.
    rewrite is_processed_emit.
    destruct (is_processed user_id w) eqn:Hp; [apply IH|].
    adv_emit (EvUserInfo user_id).
    destruct (user_info env _ user_id) as [ui|]; [|apply IH].
    destruct (following ui).
    + eapply advances_trans; [apply advances_add_user | apply IH].
    + pose proof (advances_follow_user env user_id uname "specific"
                    (emit (EvUserInfo user_id) (emit (EvResolve uname) w)) Hp) as Hf.
      destruct (follow_user env user_id uname "specific" _) as [[[]|] w3];
        simpl in Hf; (eapply advances_trans; [exact Hf|]); try apply IH.
      eapply advances_trans; [apply advances_delay | apply IH].
Qed.

Lemma advances_followers_loop env st target N followers n w :
  advances env w (followers_loop env st target N followers n w).2.
Proof.
  revert n w. induction followers as [|[fid fname] rest IH]; intros n w; simpl.
  - apply advances_refl.
  - case_bool_decide; [apply advances_refl|].
    destruct (is_processed fid w) eqn:Hp.
    { destruct (cached_status fid w); [apply IH | apply advances_refl]. }
    adv_emit (EvUserInfo fid).
    destruct (user_info env (trace w) fid) as [ui|]; [|apply IH].
    destruct (following ui).
    { eapply advances_trans; [apply advances_add_user | apply IH]. }
    pose proof (advances_should_follow_user env st ui target
                  (emit (EvUserInfo fid) w)) as Hs.
    destruct (_should_follow_user env st ui target (emit (EvUserInfo fid) w))
      as [[[]|] w2] eqn:Hsf; simpl in Hs;
      try (eapply advances_trans; [exact Hs | apply IH]).
    assert (w2 = emit (EvUserInfo fid) w) as ->.
    { revert Hsf. unfold _should_follow_user.
      repeat (case_match; simpl; try congruence). }
    pose proof (advances_follow_user env fid fname target
                  (emit (EvUserInfo fid) w) Hp) as Hf.
    destruct (follow_user env fid fname target _) as [[[]|] w3];
      simpl in Hf; (eapply advances_trans; [exact Hf|]); try apply IH.
    eapply advances_trans; [apply advances_delay | apply IH].
Qed.

Lemma advances_follow_account_followers env st target N w :
  advances env w (follow_account_followers env st target N w).2.
Proof.
  unfold follow_account_followers. adv_emit (EvResolve target).
  destruct (user_id_from_username env (trace w) target) as [user_id| |];
    try apply advances_refl.
  adv_emit (EvFollowers user_id (default (max_followers_to_follow st) N * 3)).
  destruct (user_followers env _ user_id _) as [followers| |];
    try apply advances_refl.
  pose proof (advances_followers_loop env st target
                (default (max_followers_to_follow st) N) followers 0
                (emit (EvFollowers user_id (default (max_followers_to_follow st) N * 3))
                   (emit (EvResolve target) w))) as Hl.
  by destruct (followers_loop env st target _ followers 0 _) as [[] w3].
Qed.

Lemma advances_targets_loop env st targets n w :
  advances env w (targets_loop env st targets n w).2.
Proof.
  revert n w. induction targets as [|target rest IH]; intros n w; simpl.
  - apply advances_refl.
  - pose proof (advances_follow_account_followers env st target None w) as Hf.
    destruct (follow_account_followers env st target None w) as [count w1].
    eapply advances_trans; [exact Hf | apply IH].
Qed.

Lemma advances_run env cfg w : advances env w (run env cfg w).2.
Proof.
  unfold run, login. simpl. adv_emit EvLogin.
  destruct (login_result env (trace w)); simpl; [|apply advances_refl].
  destruct (specific_accounts_to_follow cfg) as [|uname accounts].
  - pose proof (advances_targets_loop env (settings cfg) (target_accounts cfg)
                  (0 + 0) (emit EvLogin w)) as Ht.
    by destruct (targets_loop env (settings cfg) (target_accounts cfg) (0 + 0) _).
  - pose proof (advances_specific_loop env (settings cfg) (uname :: accounts) 0
                  (emit EvLogin w)) as Hs.
    unfold follow_specific_accounts.
    destruct (specific_loop env (settings cfg) (uname :: accounts) 0
                (emit EvLogin w)) as [count w1].
    pose proof (advances_targets_loop env (settings cfg) (target_accounts cfg)
                  (0 + count) w1) as Ht.
    destruct (targets_loop env (settings cfg) (target_accounts cfg) (0 + count) w1).
    eapply advances_trans; [exact Hs | exact Ht].
Qed.




(** ** [follow_user] under rate limiting *)

(** C6. When [client.user_follow] raises [PleaseWaitFewMinutes], [follow_user]
    makes that one follow call, records the user as ["failed"] (with a save),
    then sleeps 300 seconds, and returns [False]: the sleep is the last thing
    it does, and there is no second follow call. *)
Theorem follow_user_rate_limited_records_then_sleeps env user_id uname src w :
  user_follow env (trace w) user_id = FollowPleaseWaitFewMinutes →
  let called := EvFollow user_id FollowPleaseWaitFewMinutes :: trace w in
  let w' := (follow_user env user_id uname src w).2 in
  (follow_user env user_id uname src w).1 = Ret false ∧
  cache w' = <[str user_id :=
                 {| username := Some uname; status := Some "failed";
                    source := Some src; timestamp := Some (now env called);
                    attempts := Some (prior_attempts (cache w) user_id + 1) |}]>
               (cache w) ∧
  trace w' = EvSleep 300 :: EvSave (cache w') (save_result env called) :: called ∧
  follow_calls (trace w') = user_id :: follow_calls (trace w).
Proof. intros Hr called w'. unfold w', follow_user. by rewrite Hr. Qed.

Lemma follow_user_rate_limited_records_then_sleeps_witness :
  (follow_user throttling_env 9 "nina" "carol" empty_world).1 = Ret false ∧
  cache (follow_user throttling_env 9 "nina" "carol" empty_world).2 !! str 9
    ≫= status = Some "failed" ∧
  head (trace (follow_user throttling_env 9 "nina" "carol" empty_world).2)
    = Some (EvSleep 300).
Proof.
  destruct (follow_user_rate_limited_records_then_sleeps throttling_env 9
              "nina" "carol" empty_world) as (Hr & Hc & Ht & _); [reflexivity|].
  split; [exact Hr|]. split.
  - rewrite Hc. reflexivity.
  - rewrite Ht. reflexivity.
Defined.

(** ** A failed profile fetch *)

(** C9. When [client.user_info] fails for a follower that has no record and
    the cap is not reached, [follow_account_followers] goes on with the rest
    of the batch exactly as it would have without that follower, having only
    made the failed call: the cache and the cache file are untouched and the
    follower still has no record. The same holds for a failed profile fetch
    in [follow_specific_accounts]. *)
Theorem profile_fetch_error_skips_without_record env st target N fid fname
    (followers : list (Z * string)) uname (accounts : list string) n w :
  (n < N → is_processed fid w = false →
   user_info env (trace w) fid = InfoError →
   let w1 := emit (EvUserInfo fid) w in
   followers_loop env st target N ((fid, fname) :: followers) n w
     = followers_loop env st target N followers n w1 ∧
   cache w1 = cache w ∧ disk w1 = disk w ∧ is_processed fid w1 = false) ∧
  (user_id_from_username env (trace w) uname = ResolveOk fid →
   is_processed fid w = false →
   user_info env (EvResolve uname :: trace w) fid = InfoError →
   let w2 := emit (EvUserInfo fid) (emit (EvResolve uname) w) in
   specific_loop env st (uname :: accounts) n w
     = specific_loop env st accounts n w2 ∧
   cache w2 = cache w ∧ disk w2 = disk w ∧ is_processed fid w2 = false).
Proof.
  split.
  - intros Hn Hp Hi w1. split_and!; try done. simpl.
    rewrite bool_decide_eq_false_2 by lia. by rewrite Hp, Hi.
  - intros Hr Hp Hi w2. split_and!; try done. simpl.
    rewrite Hr, is_processed_emit, Hp. simpl. by rewrite Hi.
Qed.

(** With no profile to be had, the first follower and the first listed
    account are passed over and the loops go on with the second. *)
Lemma profile_fetch_error_skips_without_record_witness :
  followers_loop no_profile_env sample_settings "carol" 2
    [(1, "one"); (2, "two")] 0 empty_world
  = followers_loop no_profile_env sample_settings "carol" 2
      [(2, "two")] 0 (emit (EvUserInfo 1) empty_world) ∧
  specific_loop no_profile_env sample_settings ["alice"; "bob"] 0 empty_world
  = specific_loop no_profile_env sample_settings ["bob"] 0
      (emit (EvUserInfo 1) (emit (EvResolve "alice") empty_world)).
Proof.
  destruct (profile_fetch_error_skips_without_record no_profile_env
              sample_settings "carol" 2 1 "one" [(2, "two")] "alice" ["bob"]
              0 empty_world) as [Hf Hs].
  split.
  - apply Hf; [lia | reflexivity | reflexivity].
  - apply Hs; reflexivity.
Defined.

(** ** [_should_follow_user] *)

Lemma should_follow_user_accept_world env st ui src w w2 :
  _should_follow_user env st ui src w = (Ret true, w2) → w2 = w.
Proof.
  unfold _should_follow_user.
  repeat (case_match; simpl; try congruence).
Qed.

(** C1, as the code has it. The answer of [_should_follow_user] depends on
    the candidate, the settings and the cache only. The call leaves the world
    as it is when it answers [True] and when the user already has a record;
    but when it turns down a user without a record (too few or too many
    followers, private, business) it records that user as ["skipped"] itself,
    with [add_user] and its save, so the cache does change. *)
Theorem should_follow_user_records_rejections env st ui src w :
  let r := _should_follow_user env st ui src w in
  (∀ env' src' w', cache w' = cache w →
     (_should_follow_user env' st ui src' w').1 = r.1) ∧
  (r.1 = Ret true → r.2 = w) ∧
  (is_processed (pk ui) w = true → r.2 = w) ∧
  (is_processed (pk ui) w = false → r.1 ≠ Ret true →
     r.1 = Ret false ∧
     r.2 = add_user env (pk ui) (info_username ui) "skipped" src w ∧
     cache r.2 ≠ cache w).
Proof.
  intros r. split_and!.
  - intros env' src' w' Hc. unfold r, _should_follow_user, cached_status,
      get_user, is_processed. rewrite Hc.
    repeat (case_match; simpl; try congruence).
  - intros Hr. destruct r as [v w2] eqn:Hsf. simpl in *. subst v.
    by apply should_follow_user_accept_world in Hsf.
  - intros Hp. unfold r, _should_follow_user. rewrite Hp. by case_match.
  - intros Hp Hr.
    assert (cache (add_user env (pk ui) (info_username ui) "skipped" src w)
            ≠ cache w) as Hne.
    { intros Heq. apply is_processed_false in Hp.
      rewrite <-Heq, add_user_cache, lookup_insert_eq in Hp. done. }
    revert Hr. unfold r, _should_follow_user. rewrite Hp.
    repeat (case_match; simpl; try done).
Qed.

Lemma should_follow_user_records_rejections_witness :
  (_should_follow_user friendly_env sample_settings tiny_account "carol"
     empty_world).2
  = add_user friendly_env 5 "tiny" "skipped" "carol" empty_world.
Proof.
  destruct (should_follow_user_records_rejections friendly_env sample_settings
              tiny_account "carol" empty_world) as (_ & _ & _ & Hrej).
  destruct Hrej as (_ & Hw & _); [reflexivity | discriminate | exact Hw].
Defined.

(** C1 as stated fails: asked about an account with 3 followers under a
    minimum of 10, [_should_follow_user] answers [False] and leaves a record
    for that account in the cache, and a snapshot in the cache file, where
    there was none. *)
Lemma should_follow_user_changes_ledger :
  let r := _should_follow_user friendly_env sample_settings tiny_account "carol"
             empty_world in
  r.1 = Ret false ∧
  cache empty_world !! str 5 = None ∧
  cache r.2 !! str 5 ≫= status = Some "skipped" ∧
  cache r.2 ≠ cache empty_world ∧
  disk r.2 ≠ disk empty_world.
Proof.
  split_and!; by vm_compute.
Qed.

(** ** The pipeline of [follow_account_followers] *)

(** C5. For a follower met while the cap is not reached, the loop of
    [follow_account_followers] does what the evaluation order of the
    specification says. A follower with a record is passed over at once: no
    profile is fetched and nothing is written (if the record has no status,
    the log message raises and the loop is left, the world still as it was).
    Otherwise the profile is fetched and the first rule of [Evaluate] that
    matches decides: already following is recorded as ["already_following"],
    the four other rejections as ["skipped"], both without a follow call, and
    only an accepted follower goes to [follow_user]; the count goes up, and
    the pacing delay is tried, when that returns [True]. The profile is
    taken to be that of the follower asked for. *)
Theorem followers_loop_applies_rules_in_order env st target N fid fname
    (rest : list (Z * string)) n w :
  n < N →
  (is_processed fid w = true →
   (∀ candidate, Evaluate st true candidate = RejectAlreadyProcessed) ∧
   followers_loop env st target N ((fid, fname) :: rest) n w =
     match cached_status fid w with
     | Ret _ => followers_loop env st target N rest n w
     | Raise => (Raise, w)
     end) ∧
  (∀ ui, is_processed fid w = false →
     user_info env (trace w) fid = InfoOk ui → pk ui = fid →
     let w1 := emit (EvUserInfo fid) w in
     followers_loop env st target N ((fid, fname) :: rest) n w =
       match Evaluate st false ui with
       | Accept =>
           let r := follow_user env fid fname target w1 in
           followers_loop env st target N rest
             (if returned_true r.1 then n + 1 else n)
             (if returned_true r.1 then (_delay env st r.2).2 else r.2)
       | RejectAlreadyProcessed => followers_loop env st target N rest n w1
       | RejectAlreadyFollowing =>
           followers_loop env st target N rest n
             (add_user env fid fname "already_following" target w1)
       | RejectTooFewFollowers | RejectTooManyFollowers
       | RejectPrivate | RejectBusiness =>
           followers_loop env st target N rest n
             (add_user env fid (info_username ui) "skipped" target w1)
       end).
Proof.
  intros Hn. split.
  - intros Hp. split; [done|]. simpl.
    rewrite bool_decide_eq_false_2 by lia. by rewrite Hp.
  - intros ui Hp Hi Hpk w1. simpl.
    rewrite bool_decide_eq_false_2 by lia. rewrite Hp, Hi.
    unfold Evaluate. destruct (following ui); [done|].
    unfold _should_follow_user. rewrite Hpk, is_processed_emit, Hp.
    case_bool_decide; [done|].
    assert (match max_followers st with
            | Some m => bool_decide (follower_count ui > m)
            | None => false
            end
            = match max_followers st with
              | Some maximum => bool_decide (maximum < follower_count ui)
              | None => false
              end) as ->.
    { destruct (max_followers st); [|done]. apply bool_decide_ext. lia. }
    destruct (match max_followers st with Some _ => _ | None => _ end); [done|].
    destruct (skip_private_accounts st && is_private ui); [done|].
    destruct (skip_business_accounts st && is_business ui); [done|].
    fold w1. by destruct (follow_user env fid fname target w1) as [[[]|] w3].
Qed.

(** A private follower under [sample_settings]: recorded as skipped, and the
    loop goes on with the next follower. *)
Lemma followers_loop_applies_rules_in_order_witness :
  followers_loop private_env sample_settings "carol" 2
    [(1, "one"); (2, "two")] 0 empty_world
  = followers_loop private_env sample_settings "carol" 2 [(2, "two")] 0
      (add_user private_env 1 "user" "skipped" "carol"
         (emit (EvUserInfo 1) empty_world)).
Proof.
  destruct (followers_loop_applies_rules_in_order private_env sample_settings
              "carol" 2 1 "one" [(2, "two")] 0 empty_world) as [_ Hrules];
    [lia|].
  exact (Hrules _ eq_refl eq_refl eq_refl).
Defined.

(** ** Counting successful follows *)

Lemma successes_cons e t :
  successes (e :: t) = (if is_success e then 1 else 0) + successes t.
Proof.
  unfold successes. rewrite filter_cons.
  case_decide as He; [rewrite He; simpl; lia|].
  destruct (is_success e); [done | lia].
Qed.

Lemma successes_app t1 t2 : successes (t1 ++ t2) = successes t1 + successes t2.
Proof. unfold successes. rewrite filter_app, length_app. lia. Qed.

Lemma successes_add_user env user_id uname st src w :
  successes (trace (add_user env user_id uname st src w)) = successes (trace w).
Proof. unfold add_user, _save_cache. simpl. by rewrite successes_cons. Qed.

Lemma successes_delay env st w :
  successes (trace (_delay env st w).2) = successes (trace w).
Proof.
  unfold _delay. repeat (case_match; simpl; try done).
Qed.

Lemma specific_loop_count env st accounts n w :
  (specific_loop env st accounts n w).1
  = n + (successes (trace (specific_loop env st accounts n w).2)
         - successes (trace w)).
Proof.
  revert n w. induction accounts as [|uname rest IH]; intros n w; simpl.
  - lia.
  - destruct (user_id_from_username env (trace w) uname) as [user_id| |];
      try (rewrite IH; simpl; rewrite successes_cons; simpl; lia).
    rewrite is_processed_emit.
    destruct (is_processed user_id w);
      [rewrite IH; simpl; rewrite successes_cons; simpl; lia|].
    destruct (user_info env _ user_id) as [ui|];
      [|rewrite IH; simpl; rewrite !successes_cons; simpl; lia].
    destruct (following ui).
    { rewrite IH, successes_add_user. simpl. rewrite !successes_cons. simpl. lia. }
    destruct (follow_user_world env user_id uname "specific"
                (emit (EvUserInfo user_id) (emit (EvResolve uname) w)))
      as (_ & Hs & _).
    destruct (follow_user env user_id uname "specific" _) as [[[]|] w3];
      simpl in Hs; rewrite IH, ?successes_delay; simpl;
      rewrite ?successes_cons in *; simpl in *; lia.
Qed.

(** ** [follow_specific_accounts] *)

(** C4, as the code has it. For each listed user name [follow_specific_accounts]
    resolves the name; a user with a record is passed over with no profile
    fetch and no write; otherwise the profile is fetched, a user already
    followed is recorded as ["already_following"], and every other user goes
    to [follow_user], whatever the follower count and the private and business
    flags of the profile: the rules of [_should_follow_user] are not applied
    to listed accounts. The count goes up, and the pacing delay is tried,
    when [follow_user] returns [True]. The value returned is the number of
    follow calls of the run that returned [True]. *)
Theorem follow_specific_accounts_follows_unrecorded env st uname
    (accounts all : list string) n w :
  let w1 := emit (EvResolve uname) w in
  (∀ uid, user_id_from_username env (trace w) uname = ResolveOk uid →
     (is_processed uid w = true →
      specific_loop env st (uname :: accounts) n w
        = specific_loop env st accounts n w1) ∧
     (∀ ui, is_processed uid w = false →
        user_info env (trace w1) uid = InfoOk ui →
        let w2 := emit (EvUserInfo uid) w1 in
        specific_loop env st (uname :: accounts) n w =
          if following ui then
            specific_loop env st accounts n
              (add_user env uid uname "already_following" "specific" w2)
          else
            let r := follow_user env uid uname "specific" w2 in
            specific_loop env st accounts
              (if returned_true r.1 then n + 1 else n)
              (if returned_true r.1 then (_delay env st r.2).2 else r.2))) ∧
  (follow_specific_accounts env st all w).1
  = successes (trace (follow_specific_accounts env st all w).2)
    - successes (trace w).
Proof.
  intros w1. split.
  - intros uid Hr. split.
    + intros Hp. simpl. by rewrite Hr, is_processed_emit, Hp.
    + intros ui Hp Hi w2. simpl in Hi. simpl.
      rewrite Hr, is_processed_emit, Hp, Hi. destruct (following ui); [done|].
      fold w1. fold w2.
      by destruct (follow_user env uid uname "specific" w2) as [[[]|] w3].
  - unfold follow_specific_accounts. rewrite specific_loop_count. lia.
Qed.

(** A listed private account under [private_env]: it is followed. *)
Lemma follow_specific_accounts_follows_unrecorded_witness :
  specific_loop private_env sample_settings ["alice"; "bob"] 0 empty_world
  = specific_loop private_env sample_settings ["bob"] 1
      (_delay private_env sample_settings
         (follow_user private_env 1 "alice" "specific"
            (emit (EvUserInfo 1) (emit (EvResolve "alice") empty_world))).2).2.
Proof.
  destruct (follow_specific_accounts_follows_unrecorded private_env
              sample_settings "alice" ["bob"] [] 0 empty_world) as [Hstep _].
  destruct (Hstep 1 eq_refl) as [_ Hnew].
  exact (Hnew _ eq_refl eq_refl).
Defined.

(** C4 as stated fails: with private accounts to be skipped, the policy turns
    down the private account "alice" ([_should_follow_user] answers [False],
    [Evaluate] says [RejectPrivate]), and [follow_specific_accounts] calls
    follow on it all the same and counts one successful follow. *)
Lemma follow_specific_accounts_ignores_policy :
  let ui := {| pk := 1; info_username := "user"; follower_count := 100;
               is_private := true; is_business := false; following := false |} in
  let w2 := emit (EvUserInfo 1) (emit (EvResolve "alice") empty_world) in
  user_info private_env (trace (emit (EvResolve "alice") empty_world)) 1 = InfoOk ui ∧
  (_should_follow_user private_env sample_settings ui "specific" w2).1 = Ret false ∧
  Evaluate sample_settings false ui = RejectPrivate ∧
  (follow_specific_accounts private_env sample_settings ["alice"]
     empty_world).1 = 1 ∧
  follow_calls (trace (follow_specific_accounts private_env sample_settings
                         ["alice"] empty_world).2)
    = [1].
Proof. split_and!; by vm_compute. Qed.

(** ** The cap of [follow_account_followers] *)

Lemma successes_rev t : successes (rev t) = successes t.
Proof.
  induction t as [|e t IH]; [done|]. simpl.
  rewrite successes_app, IH, !successes_cons. unfold successes at 2. simpl. lia.
Qed.

Lemma respects_cap_app N n t1 t2 :
  respects_cap N n (t1 ++ t2) ↔
  respects_cap N n t1 ∧ respects_cap N (n + successes t1) t2.
Proof.
  revert n. induction t1 as [|e t1 IH]; intros n; simpl.
  - change (successes []) with 0. replace (n + 0) with n by lia. tauto.
  - rewrite IH, successes_cons.
    destruct (is_success e);
      [replace (n + (1 + successes t1)) with (n + 1 + successes t1) by lia
      |replace (n + (0 + successes t1)) with (n + successes t1) by lia]; tauto.
Qed.

Lemma steps_refl N n w : steps N n w n w.
Proof. exists []. unfold successes. simpl. split_and!; [done..|lia]. Qed.

Lemma steps_trans N n w n1 w1 n2 w2 :
  steps N n w n1 w1 → steps N n1 w1 n2 w2 → steps N n w n2 w2.
Proof.
  intros (new1 & Ht1 & Hc1 & ->) (new2 & Ht2 & Hc2 & ->).
  exists (new2 ++ new1)%list. split_and!.
  - by rewrite Ht2, Ht1, (assoc_L (++)).
  - rewrite rev_app_distr. apply respects_cap_app. by rewrite successes_rev.
  - rewrite successes_app. lia.
Qed.

Lemma steps_emit N n e w :
  (∀ user_id r, e ≠ EvFollow user_id r) → steps N n w n (emit e w).
Proof.
  intros He. exists [e]. split_and!; [done| |].
  - simpl. destruct e; try done. by destruct (He user_id outcome).
  - rewrite successes_cons. unfold successes. simpl.
    destruct e as [| | | |? []| | | |]; simpl; try lia.
    by destruct (He user_id (FollowReturned result)).
Qed.

Lemma steps_add_user N n env user_id uname st src w :
  steps N n w n (add_user env user_id uname st src w).
Proof.
  exists [EvSave (<[str user_id :=
            {| username := Some uname; status := Some st; source := Some src;
               timestamp := Some (now env (trace w));
               attempts := Some (prior_attempts (cache w) user_id + 1) |}]>
            (cache w)) (save_result env (trace w))].
  unfold successes. simpl. split_and!; [done..|lia].
Qed.

Lemma steps_should_follow_user N n env st ui src w :
  steps N n w n (_should_follow_user env st ui src w).2.
Proof.
  unfold _should_follow_user.
  repeat (case_match; simpl; try apply steps_refl; try apply steps_add_user).
Qed.

Lemma steps_follow_user N n env user_id uname src w :
  n < N →
  steps N n w
    (if returned_true (follow_user env user_id uname src w).1 then n + 1 else n)
    (follow_user env user_id uname src w).2.
Proof.
  intros Hn. unfold follow_user.
  destruct (user_follow env (trace w) user_id) as [[]| | |]; simpl.
  - eapply steps_trans; [|apply steps_add_user].
    exists [EvFollow user_id (FollowReturned true)].
    unfold successes. simpl. split_and!; [done..|lia].
  - eapply steps_trans; [|apply steps_add_user].
    exists [EvFollow user_id (FollowReturned false)].
    unfold successes. simpl. split_and!; [done..|lia].
  - eapply steps_trans; [|by apply (steps_emit _ _ (EvSleep 300))].
    eapply steps_trans; [|apply steps_add_user].
    exists [EvFollow user_id FollowPleaseWaitFewMinutes].
    unfold successes. simpl. split_and!; [done..|lia].
  - eapply steps_trans; [|apply steps_add_user].
    exists [EvFollow user_id FollowClientError].
    unfold successes. simpl. split_and!; [done..|lia].
  - exists [EvFollow user_id FollowOtherException].
    unfold successes. simpl. split_and!; [done..|lia].
Qed.

Lemma steps_delay N n env st w : steps N n w n (_delay env st w).2.
Proof.
  unfold _delay. repeat (case_match; simpl; try apply steps_refl).
  by apply steps_emit.
Qed.

Lemma delay_cache env st w :
  cache (_delay env st w).2 = cache w ∧ disk (_delay env st w).2 = disk w.
Proof. unfold _delay. by repeat (case_match; simpl). Qed.

Lemma should_follow_user_Evaluate env st ui src w :
  is_processed (pk ui) w = false → following ui = false →
  _should_follow_user env st ui src w =
    match Evaluate st false ui with
    | Accept => (Ret true, w)
    | _ => (Ret false, add_user env (pk ui) (info_username ui) "skipped" src w)
    end.
Proof.
  intros Hp Hf. unfold _should_follow_user, Evaluate. rewrite Hp, Hf.
  case_bool_decide; [done|].
  assert (match max_followers st with
          | Some m => bool_decide (follower_count ui > m)
          | None => false
          end
          = match max_followers st with
            | Some maximum => bool_decide (maximum < follower_count ui)
            | None => false
            end) as ->.
  { destruct (max_followers st); [|done]. apply bool_decide_ext. lia. }
  destruct (match max_followers st with Some _ => _ | None => _ end); [done|].
  destruct (skip_private_accounts st && is_private ui); [done|].
  by destruct (skip_business_accounts st && is_business ui).
Qed.

Lemma should_follow_user_cache env st ui src w :
  let r := _should_follow_user env st ui src w in
  (r.2 = w ∧ (is_processed (pk ui) w = false → r.1 = Ret true)) ∨
  (r.1 = Ret false ∧
   r.2 = add_user env (pk ui) (info_username ui) "skipped" src w).
Proof.
  unfold _should_follow_user.
  destruct (is_processed (pk ui) w); [left; by case_match|].
  repeat (case_match; simpl; try (by left); try (by right)).
Qed.

(** What one turn of the loop of [follow_account_followers] does, below the
    cap: it is left on a [KeyError], or it goes on with the rest of the batch
    after at most one follow call and at most one record written. *)
Lemma followers_loop_step env st target N fid fname n w :
  n < N →
  (is_processed fid w = true ∧ cached_status fid w = Raise ∧
   ∀ rest, followers_loop env st target N ((fid, fname) :: rest) n w = (Raise, w)) ∨
  ∃ n1 w1,
    (∀ rest, followers_loop env st target N ((fid, fname) :: rest) n w
             = followers_loop env st target N rest n1 w1) ∧
    steps N n w n1 w1 ∧
    (n1 = n ∨ n1 = n + 1) ∧
    (cache w1 = cache w ∨
     ∃ uid e, is_Some (status e) ∧ cache w1 = <[str uid := e]> (cache w) ∧
              (honest_profiles env → uid = fid)) ∧
    (honest_profiles env → will_be_followed env st w fid → n1 = n + 1).
Proof.
  intros Hn. simpl. rewrite bool_decide_eq_false_2 by lia.
  destruct (is_processed fid w) eqn:Hp.
  { destruct (cached_status fid w) eqn:Hcs; [right|by left].
    exists n, w. split_and!; [done|apply steps_refl|by left|by left|].
    intros _ [Hnp _]. congruence. }
  right. destruct (user_info env (trace w) fid) as [ui|] eqn:Hi.
  2:{ exists n, (emit (EvUserInfo fid) w).
      split_and!; [done|by apply steps_emit|by left|by left|].
      intros _ [_ Hw]. destruct (Hw (trace w)) as [(ui & Hui & _) _]. congruence. }
  destruct (following ui) eqn:Hf.
  { exists n, (add_user env fid fname "already_following" target
                 (emit (EvUserInfo fid) w)).
    split_and!; [done| |by left| |].
    - apply (steps_trans _ _ _ n (emit (EvUserInfo fid) w));
        [by apply steps_emit | apply steps_add_user].
    - right. eexists fid, _. rewrite add_user_cache. split_and!; [|done..].
      simpl. eauto.
    - intros _ [_ Hw]. destruct (Hw (trace w)) as [(ui' & Hui & Hev) _].
      rewrite Hi in Hui. simplify_eq. unfold Evaluate in Hev.
      by rewrite Hf in Hev. }
  pose proof (should_follow_user_cache env st ui target (emit (EvUserInfo fid) w))
    as Hsc.
  pose proof (steps_should_follow_user N n env st ui target
                (emit (EvUserInfo fid) w)) as Hss.
  destruct (_should_follow_user env st ui target (emit (EvUserInfo fid) w))
    as [v w2] eqn:Hsf. simpl in Hsc, Hss.
  assert (steps N n w n w2) as Hw2.
  { apply (steps_trans _ _ _ n (emit (EvUserInfo fid) w));
      [by apply steps_emit | exact Hss]. }
  assert (honest_profiles env → will_be_followed env st w fid → v = Ret true)
    as Haccept.
  { intros Hh [Hnp Hw]. destruct (Hw (trace w)) as [(ui' & Hui & Hev) _].
    rewrite Hi in Hui. simplify_eq.
    rewrite should_follow_user_Evaluate, Hev in Hsf; [by simplify_eq| |done].
    by rewrite is_processed_emit, (Hh _ _ _ Hi). }
  destruct v as [[]|].
  - destruct Hsc as [[-> _]|[? _]]; [|done].
    pose proof (steps_follow_user N n env fid fname target
                  (emit (EvUserInfo fid) w) Hn) as Hfu.
    destruct (follow_user_world env fid fname target (emit (EvUserInfo fid) w))
      as (_ & _ & Hok & Hrec & Hexc).
    assert (cache (follow_user env fid fname target (emit (EvUserInfo fid) w)).2
            = cache w ∨
            ∃ uid e, is_Some (status e) ∧
              cache (follow_user env fid fname target (emit (EvUserInfo fid) w)).2
              = <[str uid := e]> (cache w) ∧
              (honest_profiles env → uid = fid)) as Hcache.
    { destruct (user_follow env (trace (emit (EvUserInfo fid) w)) fid) eqn:Ho;
        [right; destruct Hrec as [Hc _]; [done|]; eexists fid, _;
         rewrite Hc, add_user_cache; (split_and!; [|done..]); simpl; eauto ..|].
      left. by rewrite (Hexc eq_refl). }
    assert (will_be_followed env st w fid →
            returned_true (follow_user env fid fname target
                             (emit (EvUserInfo fid) w)).1 = true) as Hsure.
    { intros [_ Hw]. destruct (Hw (trace (emit (EvUserInfo fid) w))) as [_ Hfo].
      by rewrite Hok, Hfo. }
    destruct (follow_user env fid fname target (emit (EvUserInfo fid) w))
      as [v3 w3]. simpl in Hfu. cbn [fst snd] in Hcache, Hsure.
    destruct v3 as [[]|]; simpl in Hfu.
    + exists (n + 1), (_delay env st w3).2.
      split_and!; [done| |by right| |done].
      * apply (steps_trans _ _ _ n (emit (EvUserInfo fid) w));
          [by apply steps_emit|].
        apply (steps_trans _ _ _ (n + 1) w3); [exact Hfu | apply steps_delay].
      * by rewrite (proj1 (delay_cache env st w3)).
    + exists n, w3. split_and!; [done| |by left|done|].
      * apply (steps_trans _ _ _ n (emit (EvUserInfo fid) w));
          [by apply steps_emit | exact Hfu].
      * intros _ Hw. by specialize (Hsure Hw).
    + exists n, w3. split_and!; [done| |by left|done|].
      * apply (steps_trans _ _ _ n (emit (EvUserInfo fid) w));
          [by apply steps_emit | exact Hfu].
      * intros _ Hw. by specialize (Hsure Hw).
  - exists n, w2. split_and!; [done|done|by left| |].
    + destruct Hsc as [[-> _]|[_ ->]]; [by left|]. right.
      eexists (pk ui), _. rewrite add_user_cache. split_and!; [|done|].
      * simpl. eauto.
      * intros Hh. by apply (Hh _ _ _ Hi).
    + intros Hh Hw. by specialize (Haccept Hh Hw).
  - exists n, w2. split_and!; [done|done|by left| |].
    + destruct Hsc as [[-> _]|[? _]]; [by left|done].
    + intros Hh Hw. by specialize (Haccept Hh Hw).
Qed.

Lemma ledger_ok_cached_status fid w :
  ledger_ok w → is_processed fid w = true → cached_status fid w ≠ Raise.
Proof.
  intros Hok [e He]%is_processed_true. unfold cached_status, get_user.
  rewrite He. simpl. destruct (Hok _ _ He) as [s ->]. done.
Qed.

Lemma ledger_ok_step (P : Z → Prop) w w1 :
  ledger_ok w →
  (cache w1 = cache w ∨
   ∃ uid e, is_Some (status e) ∧ cache w1 = <[str uid := e]> (cache w) ∧ P uid) →
  ledger_ok w1.
Proof.
  unfold ledger_ok. intros Hok [->|(uid & e & He & -> & _)]; [done|].
  by apply map_Forall_insert_2.
Qed.

Lemma followers_loop_steps env st target N followers n w :
  n ≤ N →
  ∃ n', steps N n w n' (followers_loop env st target N followers n w).2 ∧
        n' ≤ N ∧
        ((followers_loop env st target N followers n w).1 = Ret n' ∨
         (followers_loop env st target N followers n w).1 = Raise).
Proof.
  revert n w. induction followers as [|[fid fname] rest IH]; intros n w Hn.
  - exists n. split_and!; [apply steps_refl | done | by left].
  - destruct (decide (n < N)) as [Hlt|Hge].
    + destruct (followers_loop_step env st target N fid fname n w Hlt)
        as [(_ & _ & Heq)|(n1 & w1 & Heq & Hs & Hn1 & _)].
      * rewrite Heq. exists n. split_and!; [apply steps_refl | done | by right].
      * rewrite Heq. destruct (IH n1 w1) as (n' & Hs' & Hn' & Hr); [lia|].
        exists n'. split_and!; [|done..]. by eapply steps_trans.
    + simpl. rewrite bool_decide_eq_true_2 by lia.
      exists n. split_and!; [apply steps_refl | done | by left].
Qed.

Lemma followers_loop_returns env st target N followers n w :
  ledger_ok w → ∃ n', (followers_loop env st target N followers n w).1 = Ret n'.
Proof.
  revert n w. induction followers as [|[fid fname] rest IH]; intros n w Hok.
  - by exists n.
  - destruct (decide (n < N)) as [Hlt|Hge].
    + destruct (followers_loop_step env st target N fid fname n w Hlt)
        as [(Hp & Hcs & _)|(n1 & w1 & Heq & _ & _ & Hc & _)].
      * by destruct (ledger_ok_cached_status fid w Hok Hp).
      * rewrite Heq. apply IH. revert Hc. by apply ledger_ok_step.
    + simpl. rewrite bool_decide_eq_true_2 by lia. by exists n.
Qed.

Lemma followers_loop_reaches_cap env st target N (elig : Z → bool)
    (followers : list (Z * string)) n w :
  honest_profiles env → NoDup followers.*1 → ledger_ok w → n ≤ N →
  (∀ c, c ∈ followers.*1 → elig c = true → will_be_followed env st w c) →
  N ≤ n + Z.of_nat (length (filter (λ c, elig c = true) followers.*1)) →
  (followers_loop env st target N followers n w).1 = Ret N.
Proof.
  intros Hh. revert n w.
  induction followers as [|[fid fname] rest IH]; intros n w Hnd Hok Hn Hel Hcount.
  - simpl in *. f_equal. lia.
  - destruct (decide (n < N)) as [Hlt|Hge].
    2:{ simpl. rewrite bool_decide_eq_true_2 by lia. simpl. f_equal. lia. }
    rewrite fmap_cons in Hnd, Hel, Hcount. cbn [fst] in Hnd, Hel, Hcount.
    apply NoDup_cons in Hnd as [Hfid Hnd].
    destruct (followers_loop_step env st target N fid fname n w Hlt)
      as [(Hp & Hcs & _)|(n1 & w1 & Heq & _ & Hn1 & Hc & Hfollowed)].
    { by destruct (ledger_ok_cached_status fid w Hok Hp). }
    rewrite Heq. apply IH.
    + done.
    + revert Hc. by apply ledger_ok_step.
    + lia.
    + intros c Hc' Hec.
      destruct (Hel c) as [Hnp Hw]; [by apply list_elem_of_further | done |].
      split; [|done]. apply is_processed_false. apply is_processed_false in Hnp.
      destruct Hc as [->|(uid & e & _ & -> & Huid)]; [done|].
      rewrite lookup_insert_ne; [done|].
      intros Hs%str_inj. rewrite (Huid Hh) in Hs. by subst c.
    + rewrite filter_cons in Hcount.
      destruct (decide (elig fid = true)) as [He|He].
      * rewrite (Hfollowed Hh); [cbn [length] in Hcount; lia|].
        apply Hel; [apply list_elem_of_here | done].
      * lia.
Qed.

(** C7, as the code has it. Let the cap [N] be not negative. Whatever the
    outside world does, [follow_account_followers] makes every follow call
    while fewer than [N] follows have succeeded (so none once [N] have), and
    at most [N] follow calls succeed. When every cached record has a status,
    two more things hold. The value returned is the number of follow calls
    that succeeded. And, still for a cache whose records all have a status,
    that number is exactly [N] when the client answers each profile request
    with the profile of the user asked for and the batch (a dict: its keys
    are distinct) holds at least [N] followers that will be followed:
    followers without a record whose profile is fetched and accepted and
    whose follow call succeeds. (A record without a status makes the quick
    cache check raise a [KeyError] outside the inner [try]: the function
    then returns 0 and follows nobody further.) *)
Theorem follow_account_followers_respects_cap env st target max_to_follow w :
  let N := default (max_followers_to_follow st) max_to_follow in
  let r := follow_account_followers env st target max_to_follow w in
  0 ≤ N →
  ∃ new : list event,
    trace r.2 = (new ++ trace w)%list ∧
    respects_cap N 0 (rev new) ∧
    successes new ≤ N ∧
    (ledger_ok w →
     r.1 = successes new ∧
     (∀ user_id (batch : list (Z * string)) (elig : Z → bool),
        user_id_from_username env (trace w) target = ResolveOk user_id →
        user_followers env (EvResolve target :: trace w) user_id (N * 3)
          = FollowersOk batch →
        NoDup batch.*1 → honest_profiles env →
        (∀ c, elig c = true → will_be_followed env st w c) →
        N ≤ Z.of_nat (length (filter (λ c, elig c = true) batch.*1)) →
        r.1 = N)).
Proof.
  intros N r HN. unfold r, follow_account_followers. fold N.
  set (w1 := emit (EvResolve target) w).
  assert (steps N 0 w 0 w1) as Hs1 by (by apply steps_emit).
  destruct (user_id_from_username env (trace w) target) as [uid| |] eqn:Hr.
  2,3: destruct Hs1 as (new & Ht & Hc & Hn); exists new;
       (split_and!; simpl; [done|done|lia|]); intros _; (split; [lia|done]).
  set (w2 := emit (EvFollowers uid (N * 3)) w1).
  assert (steps N 0 w 0 w2) as Hs2.
  { apply (steps_trans _ _ _ 0 w1); [done | by apply steps_emit]. }
  destruct (user_followers env (trace w1) uid (N * 3)) as [followers| |] eqn:Hf.
  2,3: destruct Hs2 as (new & Ht & Hc & Hn); exists new;
       (split_and!; simpl; [done|done|lia|]); intros _; (split; [lia|]);
       intros ? ? ? [= <-] Hb; simpl in Hf; congruence.
  destruct (followers_loop_steps env st target N followers 0 w2 HN)
    as (n' & Hs3 & Hn' & Hres).
  pose proof (followers_loop_returns env st target N followers 0 w2) as Hret.
  assert (∀ elig : Z → bool,
            ledger_ok w →
            honest_profiles env → NoDup followers.*1 →
            (∀ c, elig c = true → will_be_followed env st w c) →
            N ≤ Z.of_nat (length (filter (λ c, elig c = true) followers.*1)) →
            (followers_loop env st target N followers 0 w2).1 = Ret N) as Hcap.
  { intros elig Hok Hh Hnd Hel Hcount.
    apply (followers_loop_reaches_cap env st target N elig); try done.
    intros c _ Hc'. destruct (Hel c Hc') as [Hnp Hw]. by split. }
  destruct (followers_loop env st target N followers 0 w2) as [v w3].
  simpl in Hs3, Hres, Hret, Hcap.
  destruct (steps_trans _ _ _ _ _ _ _ Hs2 Hs3) as (new & Ht & Hc & Hn).
  exists new. destruct Hres as [->| ->]; (split_and!; simpl; [done|done|lia|]);
    intros Hok; destruct (Hret Hok) as [n'' [= <-]]. split; [lia|].
  intros user_id batch elig [= <-] Hb Hnd Hh Hel Hcount.
  simpl in Hf. rewrite Hf in Hb. injection Hb as <-.
  by injection (Hcap elig Hok Hh Hnd Hel Hcount).
Qed.

(** With a cap of 2 and three followers that will all be followed, two are. *)
Lemma follow_account_followers_respects_cap_witness :
  (follow_account_followers friendly_env sample_settings "carol" None
     empty_world).1 = 2.
Proof.
  destruct (follow_account_followers_respects_cap friendly_env sample_settings
              "carol" None empty_world) as (new & _ & _ & _ & Hrecords).
  - simpl. lia.
  - destruct Hrecords as [_ Hexact]; [apply map_Forall_empty|].
    apply (Hexact 1 [(1, "one"); (2, "two"); (3, "three")] (λ _, true)).
    + reflexivity.
    + reflexivity.
    + apply (bool_decide_unpack (NoDup [1; 2; 3])). vm_compute. exact I.
    + intros h user_id ui Hui. injection Hui as <-. reflexivity.
    + intros c _. split; [reflexivity|]. intros h. split; [|reflexivity].
      eexists. split; reflexivity.
    + simpl. lia.
Defined.

(** C7 as stated fails: with a cap of 2 and a batch of three followers that
    have no record and that the policy accepts, no follow succeeds when the
    service answers every follow call with [False]; the three follow calls
    are made and the value returned is 0, not 2. *)
Lemma follow_account_followers_below_cap :
  let r := follow_account_followers refusing_env sample_settings "carol" None
             empty_world in
  user_followers refusing_env [EvResolve "carol"] 1 6
    = FollowersOk [(1, "one"); (2, "two"); (3, "three")] ∧
  (∀ h c, ∃ ui, user_info refusing_env h c = InfoOk ui ∧
                Evaluate sample_settings false ui = Accept) ∧
  (∀ c, is_processed c empty_world = false) ∧
  r.1 = 0 ∧ r.1 ≠ 2 ∧
  successes (trace r.2) = 0 ∧
  follow_calls (trace r.2) = [3; 2; 1].
Proof.
  split_and!; try by vm_compute.
  intros h c. eexists. split; reflexivity.
Qed.

(** * Further properties of the code *)

(** ** The cache file *)

(** X1. A record written by [add_user] and the restart of the process. The
    record is in memory whatever becomes of the save. When the save succeeds,
    a restart loads exactly the cache that was left, the new record in it.
    When the file could not be opened, a restart loads what the file held
    before, so the record is lost if it was not there; when the dump failed
    in the truncated file, a restart starts from an empty cache. *)
Theorem add_user_record_and_restart env user_id uname st src w :
  let w' := add_user env user_id uname st src w in
  let e := {| username := Some uname; status := Some st; source := Some src;
              timestamp := Some (now env (trace w));
              attempts := Some (prior_attempts (cache w) user_id + 1) |} in
  get_user user_id w' = Some e ∧
  (save_result env (trace w) = SaveOk →
   cache (restart w') = cache w' ∧ get_user user_id (restart w') = Some e) ∧
  (save_result env (trace w) = SaveOpenFailed →
   cache (restart w') = _load_cache (disk w)) ∧
  (save_result env (trace w) = SaveDumpFailed →
   cache (restart w') = ∅ ∧ is_processed user_id (restart w') = false).
Proof.
  intros w' e.
  assert (get_user user_id w' = Some e) as Hg.
  { unfold get_user, w'. by rewrite add_user_cache, lookup_insert_eq. }
  split_and!; [done|..]; intros Hs;
    unfold restart, w', add_user, _save_cache, get_user, is_processed in *;
    simpl in *; rewrite Hs; simpl; done.
Qed.

Lemma add_user_record_and_restart_witness :
  get_user 42 (restart (add_user friendly_env 42 "alice" "followed" "specific"
                          empty_world)) ≫= status = Some "followed".
Proof.
  destruct (add_user_record_and_restart friendly_env 42 "alice" "followed"
              "specific" empty_world) as (_ & Hok & _).
  destruct Hok as [_ Hg]; [reflexivity|]. rewrite Hg. reflexivity.
Defined.

(** ** [get_stats] and the other operations *)

Lemma four_counters_insert i x (m : gmap string entry) :
  m !! i = None →
  ∃ d, (d = 0 ∨ d = 1) ∧
    count_status "followed" (<[i:=x]> m) + count_status "failed" (<[i:=x]> m)
    + count_status "skipped" (<[i:=x]> m)
    + count_status "already_following" (<[i:=x]> m)
    = count_status "followed" m + count_status "failed" m
      + count_status "skipped" m + count_status "already_following" m + d ∧
    (known_status (status_or_unknown x) → d = 1).
Proof.
  intros Hi. rewrite !count_status_insert by done.
  unfold known_status.
  repeat case_decide; try (exfalso; congruence);
    try (exists 1; split_and!; [by right | lia | done]);
    exists 0; split_and!; [by left | lia | intros [?|[?|[?|?]]]; congruence].
Qed.

Lemma four_counters_le_size (m : gmap string entry) :
  count_status "followed" m + count_status "failed" m
  + count_status "skipped" m + count_status "already_following" m
  ≤ Z.of_nat (size m).
Proof.
  induction m as [|i x m Hi IH] using map_ind.
  - rewrite !count_status_empty, map_size_empty. lia.
  - destruct (four_counters_insert i x m Hi) as (d & Hd & -> & _).
    rewrite map_size_insert_None by done. lia.
Qed.

Lemma four_counters_eq_size (m : gmap string entry) :
  map_Forall (λ _ e, known_status (status_or_unknown e)) m →
  count_status "followed" m + count_status "failed" m
  + count_status "skipped" m + count_status "already_following" m
  = Z.of_nat (size m) ∧ count_status "total" m = 0.
Proof.
  induction m as [|i x m Hi IH] using map_ind; intros Hall.
  - rewrite !count_status_empty, map_size_empty. lia.
  - apply map_Forall_insert in Hall as [Hx Hm]; [|done].
    destruct (IH Hm) as [IH1 IH2].
    destruct (four_counters_insert i x m Hi) as (d & _ & -> & Hd).
    rewrite (Hd Hx), map_size_insert_None, count_status_insert, IH2 by done.
    split; [lia|]. rewrite decide_False; [done|].
    intros Ht. rewrite Ht in Hx. by destruct Hx as [?|[?|[?|?]]].
Qed.

(** X2. The four status counters of [get_stats] never add up to more than
    the number of records, and [total] is never less than it. When every
    record carries one of the four statuses the bot writes, [total] is the
    number of records and the four counters add up to it. *)
Theorem get_stats_counters_partition w :
  let s := get_stats w in
  followed s + failed s + skipped s + already_following s
    ≤ Z.of_nat (size (cache w)) ∧
  Z.of_nat (size (cache w)) ≤ total s ∧
  (map_Forall (λ _ e, ∃ st, status e = Some st ∧ known_status st) (cache w) →
   total s = Z.of_nat (size (cache w)) ∧
   followed s + failed s + skipped s + already_following s = total s).
Proof.
  intros s. unfold s. rewrite get_stats_closed_form. simpl. split_and!.
  - apply four_counters_le_size.
  - unfold count_status. lia.
  - intros Hall.
    destruct (four_counters_eq_size (cache w)) as [Hsum Ht]; [|lia].
    intros k e Hk. destruct (Hall k e Hk) as (st & Hst & Hkn).
    unfold status_or_unknown. by rewrite Hst.
Qed.

Lemma get_stats_counters_partition_witness :
  let s := get_stats purge_world in
  total s = 4 ∧ followed s + failed s + skipped s + already_following s = total s.
Proof.
  destruct (get_stats_counters_partition purge_world) as (_ & _ & Hknown).
  destruct Hknown as [Ht Hsum]; [|split; [exact Ht | exact Hsum]].
  unfold purge_world, known_status. simpl.
  repeat (apply map_Forall_insert_2;
          [eexists; split; [reflexivity | tauto]|]).
  apply map_Forall_empty.
Defined.

(** X3. [add_user] for a user without a record, then [get_stats]: the
    statistics are those from before with one more record in [total] and one
    more in the counter of the status written, if it has a counter. *)
Theorem get_stats_after_add_user_new env user_id uname st src w :
  cache w !! str user_id = None →
  get_stats (add_user env user_id uname st src w) =
    let s := bump st (get_stats w) in
    {| total := total s + 1; followed := followed s; failed := failed s;
       skipped := skipped s; already_following := already_following s |}.
Proof.
  intros Hnew. rewrite !get_stats_closed_form, add_user_cache.
  rewrite !count_status_insert, map_size_insert_None by done.
  unfold status_or_unknown, bump. simpl.
  repeat case_decide; try (exfalso; congruence); simpl; f_equal; lia.
Qed.

Lemma get_stats_after_add_user_new_witness :
  let s := get_stats (add_user friendly_env 9 "nina" "skipped" "carol"
                        purge_world) in
  total s = 5 ∧ skipped s = 2 ∧ followed s = 1 ∧ failed s = 2.
Proof.
  intros s. unfold s.
  rewrite (get_stats_after_add_user_new friendly_env 9 "nina" "skipped" "carol"
             purge_world) by reflexivity.
  repeat split; reflexivity.
Defined.

(** ** [clear_failed], again *)

Lemma map_filter_none (P : string * entry → Prop) `{!∀ kv, Decision (P kv)}
    (m : gmap string entry) :
  (∀ k e, m !! k = Some e → ¬ P (k, e)) → filter P m = ∅.
Proof.
  intros HP. apply map_empty. intros k. apply map_lookup_filter_None.
  destruct (m !! k) as [e|] eqn:Hk; [right|by left].
  intros e' [= <-]. by apply HP.
Qed.

Lemma count_status_without_failed s (m : gmap string entry) :
  count_status s (filter (λ kv : string * entry, ¬ is_failed kv.2) m)
  = if decide (s = "failed") then 0 else count_status s m.
Proof.
  unfold count_status. rewrite map_filter_filter. case_decide as Hs.
  - subst s. rewrite map_filter_none; [by rewrite map_size_empty|].
    intros k e Hk [Hst Hnf]. simpl in *. apply Hnf. unfold is_failed.
    unfold status_or_unknown in Hst.
    destruct (status e); simpl in Hst; [by subst | done].
  - f_equal. f_equal. apply map_filter_ext. intros k e Hk. simpl.
    split; [by intros [? _]|]. intros Hst. split; [done|].
    unfold is_failed. intros Hf. unfold status_or_unknown in Hst.
    rewrite Hf in Hst. simpl in Hst. by subst s.
Qed.

(** X4. After [clear_failed] no record is counted as failed, and the counters
    of the three other statuses are what they were. *)
Theorem clear_failed_resets_failed_counter env w :
  let s := get_stats w in
  let s' := get_stats (clear_failed env w).2 in
  failed s' = 0 ∧ followed s' = followed s ∧ skipped s' = skipped s ∧
  already_following s' = already_following s.
Proof.
  intros s s'. unfold s, s'. rewrite !get_stats_closed_form.
  rewrite clear_failed_cache. simpl. rewrite !count_status_without_failed.
  by repeat case_decide.
Qed.

Lemma clear_failed_trace env w :
  trace (clear_failed env w).2 =
  EvLogCleared (Z.of_nat (size (filter (λ kv : string * entry, is_failed kv.2)
                                  (cache w))))
  :: EvSave (cache (clear_failed env w).2) (save_result env (trace w))
  :: trace w.
Proof. rewrite <-to_remove_length. done. Qed.

(** X5. [clear_failed] is idempotent on the cache: a second call, against any
    outside world, removes nothing and logs a count of 0. *)
Theorem clear_failed_twice env env' w :
  let w1 := (clear_failed env w).2 in
  let w2 := (clear_failed env' w1).2 in
  cache w2 = cache w1 ∧ head (trace w2) = Some (EvLogCleared 0).
Proof.
  intros w1 w2.
  assert (filter (λ kv : string * entry, is_failed kv.2) (cache w1) = ∅) as He.
  { unfold w1. rewrite clear_failed_cache, map_filter_filter.
    apply map_filter_none. intros k e _ [Hf Hnf]. by apply Hnf. }
  split.
  - unfold w2. rewrite clear_failed_cache. apply map_filter_id.
    intros k e Hk Hf. apply (map_filter_empty_not_lookup _ _ k e He Hf Hk).
  - unfold w2. by rewrite clear_failed_trace, He, map_size_empty.
Qed.

(** X6. After [clear_failed] a user has a record exactly when it had one
    whose status was not ["failed"]: the users that failed are no longer
    passed over, all others still are, with the record they had. *)
Theorem clear_failed_forgets_only_failed env w user_id :
  let w' := (clear_failed env w).2 in
  (is_processed user_id w' = true ↔
   ∃ e, get_user user_id w = Some e ∧ status e ≠ Some "failed") ∧
  (is_processed user_id w' = true → get_user user_id w' = get_user user_id w).
Proof.
  intros w'. unfold w', get_user. rewrite is_processed_true, clear_failed_cache.
  split.
  - split.
    + intros [e [He Hnf]%map_lookup_filter_Some]. by exists e.
    + intros (e & He & Hnf). exists e. by apply map_lookup_filter_Some.
  - intros [e He]. rewrite He. symmetry.
    by apply map_lookup_filter_Some in He as [He _].
Qed.

Lemma clear_failed_forgets_only_failed_witness :
  is_processed 1 (clear_failed friendly_env purge_world).2 = true ∧
  is_processed 2 (clear_failed friendly_env purge_world).2 = false.
Proof.
  destruct (clear_failed_forgets_only_failed friendly_env purge_world 1)
    as [[_ Hkept] _].
  split; [|reflexivity]. apply Hkept. eexists. split; [reflexivity | discriminate].
Defined.

(** ** [follow_user] and [_should_follow_user], case by case *)

Lemma count_events_cons P e t :
  count_events P (e :: t) = (if P e then 1 else 0) + count_events P t.
Proof.
  unfold count_events. rewrite filter_cons.
  case_decide as He; [rewrite He; simpl; lia|].
  destruct (P e); [done | lia].
Qed.

Lemma count_events_app P t1 t2 :
  count_events P (t1 ++ t2) = count_events P t1 + count_events P t2.
Proof. unfold count_events. rewrite filter_app, length_app. lia. Qed.

(** X7. [follow_user] calls [client.user_follow] once.  When the call
    returns or raises a [ClientError], [follow_user] leaves a record for the
    user: ["followed"] when the call returned [True] (the only case in which
    [follow_user] returns [True]), ["failed"] when it returned [False], was
    throttled or raised another client error.  When the call raises anything
    else, [follow_user] lets the exception through and writes no record: the
    ledger is as before, in memory and on disk.  It sleeps the 300 seconds
    when the call was throttled, and only then. *)
Theorem follow_user_records_every_outcome env user_id uname src w :
  let outcome := user_follow env (trace w) user_id in
  let r := follow_user env user_id uname src w in
  (r.1 = Ret true ↔ outcome = FollowReturned true) ∧
  (r.1 = Raise ↔ outcome = FollowOtherException) ∧
  (outcome ≠ FollowOtherException →
   get_user user_id r.2 =
     Some {| username := Some uname;
             status := Some (if returned_true r.1 then "followed" else "failed");
             source := Some src;
             timestamp := Some (now env (EvFollow user_id outcome :: trace w));
             attempts := Some (prior_attempts (cache w) user_id + 1) |}) ∧
  (outcome = FollowOtherException → cache r.2 = cache w ∧ disk r.2 = disk w) ∧
  follow_calls (trace r.2) = user_id :: follow_calls (trace w) ∧
  count_events is_cooldown (trace r.2) =
    count_events is_cooldown (trace w)
    + (if is_throttled (EvFollow user_id outcome) then 1 else 0).
Proof.
  intros outcome r. unfold r, follow_user, get_user. fold outcome.
  destruct outcome as [[]| | |]; simpl;
    rewrite ?lookup_insert_eq, ?count_events_cons; simpl;
    (split_and!;
     [split; congruence | split; congruence | done | done | done | lia]).
Qed.

(** A call that raises a [ValueError] leaves the empty ledger empty; a call
    that returns [True] leaves a record. *)
Lemma follow_user_records_every_outcome_witness :
  cache (follow_user crashing_env 1 "alice" "carol" empty_world).2 = ∅ ∧
  is_Some (get_user 1 (follow_user friendly_env 1 "alice" "carol" empty_world).2).
Proof.
  split.
  - by destruct (follow_user_records_every_outcome crashing_env 1 "alice" "carol"
                   empty_world) as (_ & _ & _ & [-> _] & _).
  - destruct (follow_user_records_every_outcome friendly_env 1 "alice" "carol"
                empty_world) as (_ & _ & Hrec & _).
    rewrite Hrec; [eauto | discriminate].
Defined.

(** X8. For a user without a record, [_should_follow_user] answers [True]
    exactly when the follower count lies between the configured minimum
    (0 when not configured) and maximum (none when not configured), both
    bounds included, and the account is neither private with private
    accounts to be skipped nor a business account with those to be skipped. *)
Theorem should_follow_user_accepts_iff env st ui src w :
  is_processed (pk ui) w = false →
  ((_should_follow_user env st ui src w).1 = Ret true ↔
   default 0 (min_followers st) ≤ follower_count ui ∧
   (∀ m, max_followers st = Some m → follower_count ui ≤ m) ∧
   (skip_private_accounts st = true → is_private ui = false) ∧
   (skip_business_accounts st = true → is_business ui = false)).
Proof.
  intros Hp. unfold _should_follow_user. rewrite Hp.
  case_bool_decide as Hmin; simpl.
  { split; [done|]. intros [? _]. lia. }
  destruct (max_followers st) as [m|] eqn:Hmax.
  - case_bool_decide as Hm; simpl.
    { split; [done|]. intros (_ & Hle & _). specialize (Hle m eq_refl). lia. }
    destruct (skip_private_accounts st), (is_private ui),
      (skip_business_accounts st), (is_business ui); simpl;
      (split; [try done; intros _; split_and!; try done; try lia;
               intros ? [= <-]; lia
              |try done; intros (_ & _ & H1 & H2); try (by discriminate H1);
               try (by discriminate H2)]).
  - destruct (skip_private_accounts st), (is_private ui),
      (skip_business_accounts st), (is_business ui); simpl;
      (split; [try done; intros _; split_and!; try done; lia
              |try done; intros (_ & _ & H1 & H2); try (by discriminate H1);
               try (by discriminate H2)]).
Qed.

(** An account with exactly the minimum of 10 followers is accepted. *)
Lemma should_follow_user_accepts_iff_witness :
  (_should_follow_user friendly_env sample_settings
     {| pk := 5; info_username := "ten"; follower_count := 10;
        is_private := false; is_business := false; following := false |}
     "carol" empty_world).1 = Ret true.
Proof.
  apply should_follow_user_accepts_iff; [reflexivity|].
  simpl. split_and!; [lia | intros m [= <-]; lia | done | done].
Defined.

(** ** What a run does to the ledger and to the trace *)

Lemma proceeds_refl paced w : proceeds paced w w.
Proof.
  exists []. split_and!; try done.
  - intros k e He Hn. congruence.
  - by intros u ?%elem_of_nil.
  - intros m Hm. by left.
Qed.

Lemma proceeds_trans paced w1 w2 w3 :
  proceeds paced w1 w2 → proceeds paced w2 w3 → proceeds paced w1 w3.
Proof.
  intros (new1 & Ht1 & Hs1 & Hf1 & Hp1 & Hd1 & He1 & Hc1 & Hk1)
         (new2 & Ht2 & Hs2 & Hf2 & Hp2 & Hd2 & He2 & Hc2 & Hk2).
  exists (new2 ++ new1)%list. split_and!.
  - by rewrite Ht2, Ht1, (assoc_L (++)).
  - by etrans.
  - intros k e He Hn. destruct (cache w2 !! k) as [e2|] eqn:H2.
    + pose proof (lookup_weaken _ _ _ _ H2 Hs2) as H3.
      rewrite He in H3. injection H3 as ->. by apply (Hf1 k).
    + by apply (Hf2 k).
  - intros u Hu. unfold profile_fetches in Hu. rewrite omap_app in Hu.
    apply elem_of_app in Hu as [Hu|Hu]; [|by apply Hp1].
    apply is_processed_false. specialize (Hp2 u Hu).
    apply is_processed_false in Hp2.
    by apply (lookup_weaken_None _ _ _ Hp2 Hs1).
  - rewrite count_events_app, successes_app. lia.
  - intros Hpaced. specialize (He1 Hpaced). specialize (He2 Hpaced).
    rewrite count_events_app, successes_app. lia.
  - rewrite !count_events_app. lia.
  - intros m Hm. destruct (Hk2 m Hm) as [Hm2|[Hl Hu]].
    + destruct (Hk1 m Hm2) as [?|[Hl Hu]]; [by left|].
      right. split; [done | by etrans].
    + right. split; [by etrans | done].
Qed.

(** An event that is no profile request, follow call, delay or sleep. *)
Lemma proceeds_emit paced e w :
  match e with
  | EvLogin | EvResolve _ | EvFollowers _ _ => True
  | _ => False
  end →
  proceeds paced w (emit e w).
Proof.
  intros He. exists [e]. destruct e; try done; simpl;
    (split_and!; [done | done | intros k e He' Hn; congruence
                 | by intros u ?%elem_of_nil | done | done | done
                 | intros m Hm; by left]).
Qed.

Lemma proceeds_fetch paced user_id w :
  is_processed user_id w = false →
  proceeds paced w (emit (EvUserInfo user_id) w).
Proof.
  intros Hp. exists [EvUserInfo user_id]. simpl.
  split_and!; [done | done | intros k e He' Hn; congruence | | done | done
              | done | intros m Hm; by left].
  by intros u ->%list_elem_of_singleton.
Qed.

Lemma proceeds_add_user paced env user_id uname st src w :
  is_processed user_id w = false → known_status st →
  proceeds paced w (add_user env user_id uname st src w).
Proof.
  intros Hp Hst. apply is_processed_false in Hp.
  exists [EvSave (cache (add_user env user_id uname st src w))
            (save_result env (trace w))].
  split_and!; try done.
  - rewrite add_user_cache. by apply insert_subseteq.
  - intros k e He Hn. rewrite add_user_cache in He.
    destruct (decide (str user_id = k)) as [<-|Hne].
    + rewrite lookup_insert_eq in He. injection He as <-.
      split; simpl; [|by exists st].
      unfold prior_attempts. by rewrite Hp.
    + rewrite lookup_insert_ne in He by done. congruence.
  - by intros u ?%elem_of_nil.
  - intros m Hm. unfold add_user, _save_cache in Hm. simpl in Hm.
    destruct (save_result env (trace w)); simplify_eq; [|by left].
    right. split; [by apply insert_subseteq | done].
Qed.

Lemma proceeds_should_follow_user paced env st ui src w :
  proceeds paced w (_should_follow_user env st ui src w).2.
Proof.
  unfold _should_follow_user.
  destruct (is_processed (pk ui) w) eqn:Hp.
  { case_match; apply proceeds_refl. }
  assert (known_status "skipped") as Hk by (unfold known_status; tauto).
  repeat (case_match; simpl; try apply proceeds_refl;
          try by apply proceeds_add_user).
Qed.

(** With the bounds configured and not negative, [_delay] takes its pause. *)
Lemma delay_paced env st w :
  pacing_ok env st → _delay env st w = (Ret (), emit EvDelay w).
Proof.
  intros (a & b & Ha & Hb & Ha0 & Hb0 & Hr). unfold _delay. rewrite Ha, Hb.
  destruct (Hr (trace w)) as [Hr0 Hr1].
  assert (0 <= uniform env (trace w) a b)%Q as Hu.
  { unfold uniform. nra. }
  apply Qle_bool_iff in Hu. by rewrite Hu.
Qed.

Lemma delay_world env st w :
  (_delay env st w).2 = emit EvDelay w ∨
  ((_delay env st w).2 = w ∧ ¬ pacing_ok env st).
Proof.
  destruct (_delay env st w) as [[[]|] w1] eqn:Hd.
  - left. unfold _delay in Hd. by repeat (case_match; simplify_eq).
  - right. split.
    + unfold _delay in Hd. by repeat (case_match; simplify_eq).
    + intros Hp. by rewrite (delay_paced _ _ _ Hp) in Hd.
Qed.

(** [follow_user] on a user without a record, with the delay that its
    callers take when it returns [True]. *)
Lemma proceeds_follow_paced env st user_id uname src w :
  is_processed user_id w = false →
  proceeds (pacing_ok env st) w
    (if returned_true (follow_user env user_id uname src w).1
     then (_delay env st (follow_user env user_id uname src w).2).2
     else (follow_user env user_id uname src w).2).
Proof.
  intros Hp. apply is_processed_false in Hp. unfold follow_user.
  set (r := user_follow env (trace w) user_id).
  set (w1 := emit (EvFollow user_id r) w).
  assert (∀ s, known_status s →
            cache w ⊆ cache (add_user env user_id uname s src w1) ∧
            (∀ k e, cache (add_user env user_id uname s src w1) !! k = Some e →
                    cache w !! k = None → fresh_record e) ∧
            (∀ m, disk (add_user env user_id uname s src w1) = Some m →
                  disk w = Some m ∨
                  (cache w ⊆ m ∧ m ⊆ cache (add_user env user_id uname s src w1))))
    as Hrec.
  { intros s Hs.
    destruct (proceeds_add_user True env user_id uname s src w1)
      as (_ & _ & Hsub & Hf & _ & _ & _ & _ & Hk); [|done|done].
    by apply is_processed_false. }
  assert (known_status "followed") as Hk1 by (unfold known_status; tauto).
  assert (known_status "failed") as Hk2 by (unfold known_status; tauto).
  destruct r as [[]| | |] eqn:Hr; simpl.
  - destruct (Hrec "followed" Hk1) as (Hs & Hf & Hk).
    destruct (delay_world env st (add_user env user_id uname "followed" src w1))
      as [-> | [-> Hnp]].
    + eexists [EvDelay; EvSave _ _; EvFollow user_id (FollowReturned true)].
      split_and!; [done | done | done | by intros u ?%elem_of_nil
                  | done | done | done | done].
    + eexists [EvSave _ _; EvFollow user_id (FollowReturned true)].
      split_and!; [done | done | done | by intros u ?%elem_of_nil
                  | done | done | done | done].
  - destruct (Hrec "failed" Hk2) as (Hs & Hf & Hk).
    eexists [EvSave _ _; EvFollow user_id (FollowReturned false)].
    split_and!; [done | done | done | by intros u ?%elem_of_nil
                | done | done | done | done].
  - destruct (Hrec "failed" Hk2) as (Hs & Hf & Hk).
    eexists [EvSleep 300; EvSave _ _; EvFollow user_id FollowPleaseWaitFewMinutes].
    split_and!; [done | done | done | by intros u ?%elem_of_nil
                | done | done | done | done].
  - destruct (Hrec "failed" Hk2) as (Hs & Hf & Hk).
    eexists [EvSave _ _; EvFollow user_id FollowClientError].
    split_and!; [done | done | done | by intros u ?%elem_of_nil
                | done | done | done | done].
  - exists [EvFollow user_id FollowOtherException]. unfold w1. simpl.
    split_and!; [done | done | intros k e He Hn; congruence
                | by intros u ?%elem_of_nil | done | done | done
                | intros m Hm; by left].
Qed.

Lemma proceeds_specific_loop env st accounts n w :
  proceeds (pacing_ok env st) w (specific_loop env st accounts n w).2.
Proof.
  revert n w. induction accounts as [|uname rest IH]; intros n w; simpl.
  - apply proceeds_refl.
  - apply (proceeds_trans _ _ (emit (EvResolve uname) w)); [by apply proceeds_emit|].
    destruct (user_id_from_username env (trace w) uname) as [user_id| |];
      try apply IH.
    rewrite is_processed_emit.
    destruct (is_processed user_id w) eqn:Hp; [apply IH|].
    apply (proceeds_trans _ _ (emit (EvUserInfo user_id) (emit (EvResolve uname) w)));
      [by apply proceeds_fetch|].
    destruct (user_info env _ user_id) as [ui|]; [|apply IH].
    destruct (following ui).
    + eapply proceeds_trans; [|apply IH].
      apply proceeds_add_user; [done | unfold known_status; tauto].
    + pose proof (proceeds_follow_paced env st user_id uname "specific"
                    (emit (EvUserInfo user_id) (emit (EvResolve uname) w)) Hp) as Hf.
      destruct (follow_user env user_id uname "specific" _) as [[[]|] w3];
        simpl in Hf; (eapply proceeds_trans; [exact Hf | apply IH]).
Qed.

Lemma proceeds_followers_loop env st target N followers n w :
  proceeds (pacing_ok env st) w (followers_loop env st target N followers n w).2.
Proof.
  revert n w. induction followers as [|[fid fname] rest IH]; intros n w; simpl.
  - apply proceeds_refl.
  - case_bool_decide; [apply proceeds_refl|].
    destruct (is_processed fid w) eqn:Hp.
    { destruct (cached_status fid w); [apply IH | apply proceeds_refl]. }
    apply (proceeds_trans _ _ (emit (EvUserInfo fid) w)); [by apply proceeds_fetch|].
    destruct (user_info env (trace w) fid) as [ui|]; [|apply IH].
    destruct (following ui).
    { eapply proceeds_trans; [|apply IH].
      apply proceeds_add_user; [done | unfold known_status; tauto]. }
    pose proof (proceeds_should_follow_user (pacing_ok env st) env st ui target
                  (emit (EvUserInfo fid) w)) as Hs.
    destruct (_should_follow_user env st ui target (emit (EvUserInfo fid) w))
      as [[[]|] w2] eqn:Hsf; simpl in Hs;
      try (eapply proceeds_trans; [exact Hs | apply IH]).
    apply should_follow_user_accept_world in Hsf as ->.
    pose proof (proceeds_follow_paced env st fid fname target
                  (emit (EvUserInfo fid) w) Hp) as Hf.
    destruct (follow_user env fid fname target _) as [[[]|] w3];
      simpl in Hf; (eapply proceeds_trans; [exact Hf | apply IH]).
Qed.

Lemma proceeds_follow_account_followers env st target N w :
  proceeds (pacing_ok env st) w (follow_account_followers env st target N w).2.
Proof.
  unfold follow_account_followers.
  apply (proceeds_trans _ _ (emit (EvResolve target) w)); [by apply proceeds_emit|].
  destruct (user_id_from_username env (trace w) target) as [user_id| |];
    try apply proceeds_refl.
  apply (proceeds_trans _ _
           (emit (EvFollowers user_id (default (max_followers_to_follow st) N * 3))
              (emit (EvResolve target) w))); [by apply proceeds_emit|].
  destruct (user_followers env _ user_id _) as [followers| |];
    try apply proceeds_refl.
  pose proof (proceeds_followers_loop env st target
                (default (max_followers_to_follow st) N) followers 0
                (emit (EvFollowers user_id (default (max_followers_to_follow st) N * 3))
                   (emit (EvResolve target) w))) as Hl.
  by destruct (followers_loop env st target _ followers 0 _) as [[] w3].
Qed.

Lemma proceeds_targets_loop env st targets n w :
  proceeds (pacing_ok env st) w (targets_loop env st targets n w).2.
Proof.
  revert n w. induction targets as [|target rest IH]; intros n w; simpl.
  - apply proceeds_refl.
  - pose proof (proceeds_follow_account_followers env st target None w) as Hf.
    destruct (follow_account_followers env st target None w) as [count w1].
    eapply proceeds_trans; [exact Hf | apply IH].
Qed.

Lemma proceeds_run env cfg w :
  proceeds (pacing_ok env (settings cfg)) w (run env cfg w).2.
Proof.
  unfold run, login. simpl.
  apply (proceeds_trans _ _ (emit EvLogin w)); [by apply proceeds_emit|].
  destruct (login_result env (trace w)); simpl; [|apply proceeds_refl].
  destruct (specific_accounts_to_follow cfg) as [|uname accounts].
  - pose proof (proceeds_targets_loop env (settings cfg) (target_accounts cfg)
                  (0 + 0) (emit EvLogin w)) as Ht.
    by destruct (targets_loop env (settings cfg) (target_accounts cfg) (0 + 0) _).
  - pose proof (proceeds_specific_loop env (settings cfg) (uname :: accounts) 0
                  (emit EvLogin w)) as Hs.
    unfold follow_specific_accounts.
    destruct (specific_loop env (settings cfg) (uname :: accounts) 0
                (emit EvLogin w)) as [count w1].
    pose proof (proceeds_targets_loop env (settings cfg) (target_accounts cfg)
                  (0 + count) w1) as Ht.
    destruct (targets_loop env (settings cfg) (target_accounts cfg) (0 + count) w1).
    eapply proceeds_trans; [exact Hs | exact Ht].
Qed.

Lemma proceeds_perform env op w :
  proceeds (pacing_ok env (op_settings op)) w (perform env op w).
Proof.
  destruct op; simpl.
  - apply proceeds_run.
  - apply proceeds_specific_loop.
  - apply proceeds_follow_account_followers.
Qed.

(** X9. Following, in any of the three ways and against any outside world,
    only adds records: every record that was in the cache is still there,
    unchanged, and every record that was added is the first record of its
    user (one attempt) with one of the four statuses. *)
Theorem perform_only_adds_first_records env op w :
  let w' := perform env op w in
  (∀ u e, get_user u w = Some e → get_user u w' = Some e) ∧
  (∀ k e, cache w' !! k = Some e → cache w !! k = None →
          attempts e = Some 1 ∧ ∃ s, status e = Some s ∧ known_status s).
Proof.
  intros w'. destruct (proceeds_perform env op w) as (new & _ & Hs & Hf & _).
  split; [|exact Hf].
  intros u e He. unfold get_user in *. by apply (lookup_weaken _ _ _ _ He Hs).
Qed.

Lemma perform_only_adds_first_records_witness :
  get_user 4 (perform friendly_env (OpRun sample_config) purge_world)
  = Some (record_with "skipped").
Proof.
  destruct (perform_only_adds_first_records friendly_env (OpRun sample_config)
              purge_world) as [Hkeep _].
  apply Hkeep. reflexivity.
Defined.

(** X10. Following, in any of the three ways, requests a profile only for
    users that had no record when it started: a user with a record costs no
    [client.user_info] call. *)
Theorem perform_fetches_no_recorded_profile env op w :
  ∃ new : list event,
    trace (perform env op w) = (new ++ trace w)%list ∧
    ∀ u, is_processed u w = true → u ∉ profile_fetches new.
Proof.
  destruct (proceeds_perform env op w) as (new & Ht & _ & _ & Hp & _).
  exists new. split; [done|]. intros u Hu Hin. specialize (Hp u Hin). congruence.
Qed.

Lemma perform_fetches_no_recorded_profile_witness :
  ∃ new : list event,
    trace (perform friendly_env (OpRun sample_config) purge_world) = new ∧
    1 ∉ profile_fetches new.
Proof.
  destruct (perform_fetches_no_recorded_profile friendly_env
              (OpRun sample_config) purge_world) as (new & Ht & Hn).
  exists new. split; [rewrite Ht; exact (app_nil_r new)|].
  apply Hn. reflexivity.
Defined.




(** ** The states the program can reach *)

Lemma reachable_fresh w :
  reachable w →
  map_Forall (λ _ e, fresh_record e) (cache w) ∧
  (∀ m, disk w = Some m → map_Forall (λ _ e, fresh_record e) m).
Proof.
  induction 1 as [|env op w _ [IHc IHd]|env w _ [IHc IHd]|w _ [IHc IHd]].
  - split; [apply map_Forall_empty | done].
  - destruct (proceeds_perform env op w)
      as (new & _ & Hs & Hf & _ & _ & _ & _ & Hk).
    assert (map_Forall (λ _ e, fresh_record e) (cache (perform env op w))) as Hc.
    { intros k e He. destruct (cache w !! k) as [e0|] eqn:H0; [|by apply (Hf k)].
      pose proof (lookup_weaken _ _ _ _ H0 Hs) as H1. rewrite He in H1.
      injection H1 as ->. by apply (IHc k). }
    split; [done|]. intros m Hm. destruct (Hk m Hm) as [?|[_ Hu]]; [by apply IHd|].
    intros k e He. apply (Hc k). by apply (lookup_weaken _ _ _ _ He Hu).
  - assert (map_Forall (λ _ e, fresh_record e) (cache (clear_failed env w).2))
      as Hc.
    { rewrite clear_failed_cache. intros k e [He _]%map_lookup_filter_Some.
      by apply (IHc k). }
    split; [done|]. intros m Hm. unfold clear_failed, _save_cache in Hm.
    simpl in Hm. destruct (save_result env (trace w)); simplify_eq.
    + pose proof (clear_failed_cache env w) as Heq. unfold clear_failed in Heq.
      simpl in Heq. rewrite Heq. rewrite <-(clear_failed_cache env w). exact Hc.
    + by apply IHd.
  - split; [|done]. unfold restart, _load_cache. simpl.
    destruct (disk w) as [m|]; simpl; [by apply IHd | apply map_Forall_empty].
Qed.

(** X12. In every state the program can reach from an empty start (by
    following in any of the three ways, clearing the failed records and
    restarting, against any outside world) every record has an attempt
    counter of 1 and one of the four statuses; so [get_stats] reports the
    number of records as [total], and the four counters add up to it. *)
Theorem reachable_records_have_one_attempt w :
  reachable w →
  (∀ k e, cache w !! k = Some e →
          attempts e = Some 1 ∧ ∃ s, status e = Some s ∧ known_status s) ∧
  total (get_stats w) = Z.of_nat (size (cache w)) ∧
  followed (get_stats w) + failed (get_stats w) + skipped (get_stats w)
  + already_following (get_stats w) = total (get_stats w).
Proof.
  intros [Hc _]%reachable_fresh. split; [exact Hc|].
  destruct (four_counters_eq_size (cache w)) as [Hsum Ht].
  { intros k e Hk. destruct (Hc k e Hk) as (_ & s & Hs & Hkn).
    unfold status_or_unknown. by rewrite Hs. }
  rewrite get_stats_closed_form. simpl. lia.
Qed.

(** A run, the clearing of the failed records, a restart and a second run. *)
Lemma reachable_records_have_one_attempt_witness :
  let w := perform throttling_env (OpRun sample_config)
             (restart (clear_failed friendly_env
                         (perform throttling_env (OpRun sample_config)
                            empty_world)).2) in
  total (get_stats w) = Z.of_nat (size (cache w)).
Proof.
  intros w.
  destruct (reachable_records_have_one_attempt w) as (_ & Ht & _); [|exact Ht].
  apply reach_perform, reach_restart, reach_clear_failed, reach_perform,
    reach_start.
Defined.

(** ** Durability *)

Lemma advances_perform env op w : advances env w (perform env op w).
Proof.
  destruct op; simpl.
  - apply advances_run.
  - apply advances_specific_loop.
  - apply advances_follow_account_followers.
Qed.

(** X13. When the cache is what the cache file holds (as it is after the
    start of the process) and every save succeeds, it is so again after
    following in any of the three ways: a restart then loads exactly the
    cache that was left, so no record is lost. *)
Theorem perform_keeps_file_in_step env op w :
  (∀ h, save_result env h = SaveOk) → synced w →
  let w' := perform env op w in
  synced w' ∧ cache (restart w') = cache w'.
Proof.
  intros Hok Hsync w'.
  destruct (advances_perform env op w) as (new & _ & _ & _ & Hd & _).
  assert (synced w') as Hs.
  { unfold synced, w'. destruct (Hd Hok) as [->|[-> ->]]; done. }
  split; [done|]. unfold restart. simpl. by rewrite <-Hs.
Qed.

Lemma perform_keeps_file_in_step_witness :
  cache (restart (perform friendly_env (OpRun sample_config) empty_world))
  = cache (perform friendly_env (OpRun sample_config) empty_world).
Proof.
  apply perform_keeps_file_in_step; [reflexivity | reflexivity].
Defined.

(** ** [follow_specific_accounts], name by name *)

Lemma follow_user_lookups env user_id uname src w :
  resolved_names (trace (follow_user env user_id uname src w).2)
  = resolved_names (trace w).
Proof.
  unfold follow_user.
  by destruct (user_follow env (trace w) user_id) as [[]| | |].
Qed.

Lemma delay_lookups env st w :
  resolved_names (trace (_delay env st w).2) = resolved_names (trace w) ∧
  follow_calls (trace (_delay env st w).2) = follow_calls (trace w) ∧
  profile_fetches (trace (_delay env st w).2) = profile_fetches (trace w).
Proof. by destruct (delay_world env st w) as [-> | [-> _]]. Qed.

Lemma specific_loop_lookups env st accounts n w :
  let r := specific_loop env st accounts n w in
  resolved_names (trace r.2) = (rev accounts ++ resolved_names (trace w))%list ∧
  n ≤ r.1 ≤ n + Z.of_nat (length accounts) ∧
  (length (follow_calls (trace r.2))
   ≤ length (follow_calls (trace w)) + length accounts)%nat.
Proof.
  revert n w. induction accounts as [|uname rest IH]; intros n w.
  { simpl. split_and!; [done|lia..]. }
  assert (∀ n1 w1,
            resolved_names (trace w1) = uname :: resolved_names (trace w) →
            n ≤ n1 ≤ n + 1 →
            (length (follow_calls (trace w1))
             ≤ length (follow_calls (trace w)) + 1)%nat →
            let r := specific_loop env st rest n1 w1 in
            resolved_names (trace r.2)
              = (rev (uname :: rest) ++ resolved_names (trace w))%list ∧
            n ≤ r.1 ≤ n + Z.of_nat (length (uname :: rest)) ∧
            (length (follow_calls (trace r.2))
             ≤ length (follow_calls (trace w)) + length (uname :: rest))%nat)
    as Hgo.
  { intros n1 w1 Hr Hn Hl. destruct (IH n1 w1) as (Hr' & Hn' & Hl').
    cbn [length rev]. split_and!; [|lia..].
    by rewrite Hr', Hr, <-(assoc_L (++)). }
  simpl.
  destruct (user_id_from_username env (trace w) uname) as [user_id| |];
    try (apply Hgo; simpl; [done|lia..]).
  rewrite is_processed_emit.
  destruct (is_processed user_id w); [apply Hgo; simpl; [done|lia..]|].
  destruct (user_info env _ user_id) as [ui|];
    [|apply Hgo; simpl; [done|lia..]].
  destruct (following ui); [apply Hgo; simpl; [done|lia..]|].
  pose proof (follow_user_lookups env user_id uname "specific"
                (emit (EvUserInfo user_id) (emit (EvResolve uname) w))) as Hr.
  destruct (follow_user_world env user_id uname "specific"
              (emit (EvUserInfo user_id) (emit (EvResolve uname) w)))
    as (Hf & _).
  destruct (follow_user env user_id uname "specific" _) as [[[]|] w3];
    simpl in Hr, Hf;
    (apply Hgo;
     [simpl; by rewrite ?(proj1 (delay_lookups _ _ _)), Hr
     | lia
     | simpl; rewrite ?(proj1 (proj2 (delay_lookups _ _ _))), Hf; simpl; lia]).
Qed.

(** X14. [follow_specific_accounts] looks up every listed name once, in the
    order of the list, whatever happens to the names before it (not found,
    already recorded, profile or follow failed); it returns a count between
    0 and the number of names and makes at most that many follow calls. *)
Theorem follow_specific_accounts_looks_up_every_name env st
    (accounts : list string) w :
  let r := follow_specific_accounts env st accounts w in
  resolved_names (trace r.2) = (rev accounts ++ resolved_names (trace w))%list ∧
  0 ≤ r.1 ≤ Z.of_nat (length accounts) ∧
  (length (follow_calls (trace r.2))
   ≤ length (follow_calls (trace w)) + length accounts)%nat.
Proof.
  intros r. unfold r, follow_specific_accounts.
  pose proof (specific_loop_lookups env st accounts 0 w) as H. cbv zeta in H.
  destruct H as (Hr & Hn & Hl). split_and!; [done | lia | lia | done].
Qed.

(** X15. When no listed name resolves (not found, or any other error of the
    lookup), [follow_specific_accounts] returns 0 and leaves the cache and
    the cache file as they were, requesting no profile. *)
Theorem follow_specific_accounts_nothing_resolves env st
    (accounts : list string) w :
  (∀ h uname user_id, user_id_from_username env h uname ≠ ResolveOk user_id) →
  let r := follow_specific_accounts env st accounts w in
  r.1 = 0 ∧ cache r.2 = cache w ∧ disk r.2 = disk w ∧
  profile_fetches (trace r.2) = profile_fetches (trace w) ∧
  follow_calls (trace r.2) = follow_calls (trace w).
Proof.
  intros Hno. unfold follow_specific_accounts. generalize 0 as n. revert w.
  induction accounts as [|uname rest IH]; intros w n; simpl; [done|].
  destruct (user_id_from_username env (trace w) uname) as [user_id| |] eqn:Hr;
    [by destruct (Hno _ _ _ Hr)|..];
    destruct (IH (emit (EvResolve uname) w) n) as (H1 & H2 & H3 & H4 & H5);
    by rewrite H1, H2, H3, H4, H5.
Qed.

Lemma follow_specific_accounts_nothing_resolves_witness :
  (follow_specific_accounts nobody_env sample_settings ["alice"; "bob"]
     purge_world).1 = 0 ∧
  cache (follow_specific_accounts nobody_env sample_settings ["alice"; "bob"]
           purge_world).2
  = cache purge_world.
Proof.
  destruct (follow_specific_accounts_nothing_resolves nobody_env sample_settings
              ["alice"; "bob"] purge_world) as (H1 & H2 & _).
  - intros h uname user_id. discriminate.
  - split; [exact H1 | exact H2].
Defined.

(** ** The cap, at its edges *)

(** X16. With a cap of 0 or less, [follow_account_followers] follows nobody:
    it looks the target up and asks for its followers, but requests no
    profile, makes no follow call, writes nothing and returns 0, whatever
    the batch. *)
Theorem follow_account_followers_without_cap_room env st target max_to_follow w :
  default (max_followers_to_follow st) max_to_follow ≤ 0 →
  let r := follow_account_followers env st target max_to_follow w in
  r.1 = 0 ∧ cache r.2 = cache w ∧ disk r.2 = disk w ∧
  profile_fetches (trace r.2) = profile_fetches (trace w) ∧
  follow_calls (trace r.2) = follow_calls (trace w).
Proof.
  intros HN. unfold follow_account_followers.
  destruct (user_id_from_username env (trace w) target) as [user_id| |]; try done.
  destruct (user_followers env _ user_id _) as [followers| |]; try done.
  destruct followers as [|[fid fname] rest]; simpl; [done|].
  by rewrite bool_decide_eq_true_2 by lia.
Qed.

Lemma follow_account_followers_without_cap_room_witness :
  (follow_account_followers friendly_env sample_settings "carol" (Some 0)
     empty_world).1 = 0 ∧
  follow_calls (trace (follow_account_followers friendly_env sample_settings
                         "carol" (Some 0) empty_world).2) = [].
Proof.
  destruct (follow_account_followers_without_cap_room friendly_env
              sample_settings "carol" (Some 0) empty_world)
    as (H1 & _ & _ & _ & H5); [simpl; lia|].
  split; [exact H1 | exact H5].
Defined.





(** ** [main] *)

(** X18. With [--stats] or [--retry-failed], [main] stays off line: it does
    not log in, looks up no name, requests no profile and makes no follow
    call. With [--stats] (which wins over every other argument) it only
    prints the statistics of the loaded cache and writes nothing; with
    [--retry-failed] alone it leaves the loaded cache without its failed
    records. *)
Theorem main_utility_modes_stay_off_line env cfg args w :
  arg_stats args = true ∨ arg_retry_failed args = true →
  let r := main env cfg args w in
  count_events is_login (trace r.2) = count_events is_login (trace w) ∧
  resolved_names (trace r.2) = resolved_names (trace w) ∧
  profile_fetches (trace r.2) = profile_fetches (trace w) ∧
  follow_calls (trace r.2) = follow_calls (trace w) ∧
  (arg_stats args = true →
   r = ([PrintCacheStatistics (get_stats (restart w))], restart w)) ∧
  (arg_stats args = false →
   r.1 = [] ∧
   cache r.2 = filter (λ kv, ¬ is_failed kv.2) (_load_cache (disk w))).
Proof.
  intros Hmode. unfold main. fold (restart w).
  destruct (arg_stats args).
  { simpl. by split_and!. }
  destruct Hmode as [? | ->]; [done|]. unfold retry_failed.
  cbn [fst snd]. rewrite clear_failed_trace, clear_failed_cache.
  rewrite !count_events_cons. simpl. by split_and!.
Qed.

Lemma main_utility_modes_stay_off_line_witness :
  (main friendly_env sample_config
     {| arg_target := Some "carol"; arg_follow := None; arg_max := None;
        arg_stats := true; arg_retry_failed := true |} purge_world).2
  = restart purge_world.
Proof.
  destruct (main_utility_modes_stay_off_line friendly_env sample_config
              {| arg_target := Some "carol"; arg_follow := None; arg_max := None;
                 arg_stats := true; arg_retry_failed := true |} purge_world)
    as (_ & _ & _ & _ & Hs & _); [by left|].
  rewrite (Hs eq_refl). reflexivity.
Defined.

(** X19. Without [--stats] and [--retry-failed], [main] only adds to the
    cache it loaded: whichever way it follows (listed names, a target, or the
    configured run), and whether or not the login succeeds, every record of
    the cache file is still in the cache, unchanged, when it ends. *)
Theorem main_following_keeps_loaded_records env cfg args w :
  arg_stats args = false → arg_retry_failed args = false →
  ∀ u e, get_user u (restart w) = Some e →
         get_user u (main env cfg args w).2 = Some e.
Proof.
  intros Hs Hr.
  assert (proceeds (pacing_ok env (settings cfg)) (restart w)
            (main env cfg args w).2) as (new & _ & Hsub & _).
  { unfold main. fold (restart w). rewrite Hs, Hr. unfold login. simpl.
    apply (proceeds_trans _ _ (emit EvLogin (restart w)));
      [by apply proceeds_emit|].
    destruct (login_result env (trace w)); simpl; [|apply proceeds_refl].
    set (w1 := emit EvLogin (restart w)).
    assert (∀ w2, proceeds (pacing_ok env (settings cfg)) w1 w2 →
              proceeds (pacing_ok env (settings cfg)) w1 (match given_target args with
                           | Some target =>
                               (follow_account_followers env (settings cfg)
                                  target (arg_max args) w2).2
                           | None => w2
                           end)) as Htarget.
    { intros w2 H2. destruct (given_target args); [|done].
      eapply proceeds_trans; [exact H2|].
      apply proceeds_follow_account_followers. }
    destruct (given_follow args) as [accounts|].
    - pose proof (proceeds_specific_loop env (settings cfg) accounts 0 w1) as Hsp.
      unfold follow_specific_accounts.
      destruct (specific_loop env (settings cfg) accounts 0 w1) as [count w2].
      simpl in Hsp.
      specialize (Htarget w2 Hsp). destruct (given_target args) as [target|].
      + by destruct (follow_account_followers env (settings cfg) target
                       (arg_max args) w2).
      + done.
    - specialize (Htarget w1 (proceeds_refl _ w1)).
      destruct (given_target args) as [target|].
      + by destruct (follow_account_followers env (settings cfg) target
                       (arg_max args) w1).
      + simpl. apply proceeds_run. }
  intros u e He. unfold get_user in *. by apply (lookup_weaken _ _ _ _ He Hsub).
Qed.

Lemma main_following_keeps_loaded_records_witness :
  get_user 4
    (main friendly_env sample_config
       {| arg_target := Some "carol"; arg_follow := Some ["alice"];
          arg_max := Some 1; arg_stats := false; arg_retry_failed := false |}
       (restart (clear_failed friendly_env purge_world).2)).2
  = Some (record_with "skipped").
Proof.
  apply main_following_keeps_loaded_records; reflexivity.
Defined.

(** X20. [retry_failed] gives a failed user another try. A listed account
    whose record says ["failed"] is passed over without a follow call; after
    [retry_failed] the same listing looks the account up, fetches its profile
    and, when it is not followed yet, calls follow on it. *)
Theorem retry_failed_gives_another_try env env' st uname user_id ui w :
  (∃ e, get_user user_id w = Some e ∧ status e = Some "failed") →
  let w1 := (retry_failed env' w).2 in
  user_id_from_username env (trace w) uname = ResolveOk user_id →
  user_id_from_username env (trace w1) uname = ResolveOk user_id →
  user_info env (EvResolve uname :: trace w1) user_id = InfoOk ui →
  following ui = false →
  follow_calls (trace (follow_specific_accounts env st [uname] w).2)
    = follow_calls (trace w) ∧
  follow_calls (trace (follow_specific_accounts env st [uname] w1).2)
    = user_id :: follow_calls (trace w).
Proof.
  intros (e & He & Hf) w1 Hr Hr1 Hi Hnf.
  unfold follow_specific_accounts. split.
  - simpl. rewrite Hr, is_processed_emit.
    assert (is_processed user_id w = true) as ->; [|done].
    apply is_processed_true. unfold get_user in He. rewrite He. eauto.
  - assert (is_processed user_id w1 = false) as Hp1.
    { apply is_processed_false. unfold w1, retry_failed.
      rewrite clear_failed_cache. apply map_lookup_filter_None. right.
      intros e' He' Hn. unfold get_user in He. rewrite He in He'.
      injection He' as <-. by apply Hn. }
    assert (follow_calls (trace w1) = follow_calls (trace w)) as Ht1.
    { unfold w1, retry_failed. by rewrite clear_failed_trace. }
    clearbody w1. simpl. rewrite Hr1, is_processed_emit, Hp1. simpl.
    rewrite Hi, Hnf.
    destruct (follow_user_world env user_id uname "specific"
                (emit (EvUserInfo user_id) (emit (EvResolve uname) w1)))
      as (Hfc & _).
    destruct (follow_user env user_id uname "specific" _) as [[[]|] w3];
      simpl in *;
      by rewrite ?(proj1 (proj2 (delay_lookups _ _ _))), Hfc, Ht1.
Qed.

Lemma retry_failed_gives_another_try_witness :
  follow_calls (trace (follow_specific_accounts second_user_env sample_settings
                         ["bob"] (retry_failed friendly_env purge_world).2).2)
  = [2].
Proof.
  refine (proj2 (retry_failed_gives_another_try second_user_env friendly_env
                   sample_settings "bob" 2 _ purge_world _
                   eq_refl eq_refl eq_refl eq_refl)).
  eexists. split; reflexivity.
Defined.

(** ** The order of a run *)







(** ** Following without delay bounds *)

Lemma delay_unconfigured env st w :
  delay_between_follows_min st = None ∨ delay_between_follows_max st = None →
  _delay env st w = (Raise, w).
Proof.
  intros [H|H]; unfold _delay; rewrite H; [done|].
  by destruct (delay_between_follows_min st).
Qed.

Lemma add_user_delays env user_id uname s src w :
  count_events is_delay (trace (add_user env user_id uname s src w))
  = count_events is_delay (trace w).
Proof. unfold add_user, _save_cache. simpl. by rewrite count_events_cons. Qed.

Lemma should_follow_user_delays env st ui src w :
  count_events is_delay (trace (_should_follow_user env st ui src w).2)
  = count_events is_delay (trace w).
Proof.
  unfold _should_follow_user.
  repeat (case_match; simpl; rewrite ?add_user_delays; try done).
Qed.

Lemma follow_user_delays env user_id uname src w :
  count_events is_delay (trace (follow_user env user_id uname src w).2)
  = count_events is_delay (trace w).
Proof.
  unfold follow_user.
  destruct (user_follow env (trace w) user_id) as [[]| | |]; simpl;
    rewrite ?count_events_cons, ?add_user_delays; simpl;
    rewrite ?count_events_cons; simpl; lia.
Qed.

Lemma specific_loop_delays env st accounts n w :
  delay_between_follows_min st = None ∨ delay_between_follows_max st = None →
  count_events is_delay (trace (specific_loop env st accounts n w).2)
  = count_events is_delay (trace w).
Proof.
  intros Hst. revert n w.
  induction accounts as [|uname rest IH]; intros n w; simpl; [done|].
  destruct (user_id_from_username env (trace w) uname) as [user_id| |];
    try (rewrite IH; simpl; by rewrite count_events_cons).
  rewrite is_processed_emit.
  destruct (is_processed user_id w);
    [rewrite IH; simpl; by rewrite count_events_cons|].
  destruct (user_info env _ user_id) as [ui|];
    [|rewrite IH; simpl; by rewrite !count_events_cons].
  destruct (following ui).
  { rewrite IH, add_user_delays. simpl. by rewrite !count_events_cons. }
  pose proof (follow_user_delays env user_id uname "specific"
                (emit (EvUserInfo user_id) (emit (EvResolve uname) w))) as Hf.
  destruct (follow_user env user_id uname "specific" _) as [[[]|] w3];
    simpl in Hf; rewrite IH, ?(delay_unconfigured env st w3 Hst); simpl;
    rewrite Hf; simpl; by rewrite !count_events_cons.
Qed.

Lemma followers_loop_delays env st target N followers n w :
  delay_between_follows_min st = None ∨ delay_between_follows_max st = None →
  count_events is_delay (trace (followers_loop env st target N followers n w).2)
  = count_events is_delay (trace w).
Proof.
  intros Hst. revert n w.
  induction followers as [|[fid fname] rest IH]; intros n w; simpl; [done|].
  case_bool_decide; [done|].
  destruct (is_processed fid w).
  { destruct (cached_status fid w); [apply IH | done]. }
  destruct (user_info env (trace w) fid) as [ui|];
    [|rewrite IH; simpl; by rewrite count_events_cons].
  destruct (following ui).
  { rewrite IH, add_user_delays. simpl. by rewrite count_events_cons. }
  pose proof (should_follow_user_delays env st ui target
                (emit (EvUserInfo fid) w)) as Hs.
  simpl in Hs. rewrite count_events_cons in Hs. simpl in Hs.
  destruct (_should_follow_user env st ui target (emit (EvUserInfo fid) w))
    as [[[]|] w2]; simpl in Hs; try by rewrite IH.
  pose proof (follow_user_delays env fid fname target w2) as Hf.
  destruct (follow_user env fid fname target w2) as [[[]|] w3]; simpl in Hf;
    rewrite IH, ?(delay_unconfigured env st w3 Hst); simpl; by rewrite Hf.
Qed.

Lemma follow_account_followers_delays env st target N w :
  delay_between_follows_min st = None ∨ delay_between_follows_max st = None →
  count_events is_delay (trace (follow_account_followers env st target N w).2)
  = count_events is_delay (trace w).
Proof.
  intros Hst. unfold follow_account_followers.
  destruct (user_id_from_username env (trace w) target) as [user_id| |];
    try (simpl; by rewrite count_events_cons).
  destruct (user_followers env _ user_id _) as [followers| |];
    try (simpl; by rewrite !count_events_cons).
  pose proof (followers_loop_delays env st target
                (default (max_followers_to_follow st) N) followers 0
                (emit (EvFollowers user_id (default (max_followers_to_follow st) N * 3))
                   (emit (EvResolve target) w)) Hst) as Hl.
  simpl in Hl. rewrite !count_events_cons in Hl. simpl in Hl.
  by destruct (followers_loop env st target _ followers 0 _) as [[] w3].
Qed.

Lemma targets_loop_delays env st targets n w :
  delay_between_follows_min st = None ∨ delay_between_follows_max st = None →
  count_events is_delay (trace (targets_loop env st targets n w).2)
  = count_events is_delay (trace w).
Proof.
  intros Hst. revert n w.
  induction targets as [|target rest IH]; intros n w; simpl; [done|].
  pose proof (follow_account_followers_delays env st target None w Hst) as Hf.
  destruct (follow_account_followers env st target None w) as [count w1].
  simpl in Hf. by rewrite IH.
Qed.

(** X22. When a delay bound is missing from the settings, following, in any
    of the three ways, takes no pacing delay at all: after each follow call
    that returned [True] the count is raised and [_delay] then fails on the
    missing key, which the loop catches before it goes on with the next
    user. *)
Theorem perform_without_delay_bounds_never_pauses env op w :
  delay_between_follows_min (op_settings op) = None ∨
  delay_between_follows_max (op_settings op) = None →
  count_events is_delay (trace (perform env op w))
  = count_events is_delay (trace w).
Proof.
  intros Hst. destruct op as [cfg|st accounts|st target N]; simpl in *.
  - unfold run, login. simpl.
    destruct (login_result env (trace w)); simpl;
      [|by rewrite count_events_cons].
    assert (count_events is_delay (trace (emit EvLogin w))
            = count_events is_delay (trace w)) as Hl.
    { simpl. by rewrite count_events_cons. }
    destruct (specific_accounts_to_follow cfg) as [|uname accounts].
    + pose proof (targets_loop_delays env (settings cfg) (target_accounts cfg)
                    (0 + 0) (emit EvLogin w) Hst) as Ht.
      destruct (targets_loop env (settings cfg) (target_accounts cfg) (0 + 0) _).
      simpl in *. by rewrite Ht.
    + pose proof (specific_loop_delays env (settings cfg) (uname :: accounts) 0
                    (emit EvLogin w) Hst) as Hs.
      unfold follow_specific_accounts.
      destruct (specific_loop env (settings cfg) (uname :: accounts) 0
                  (emit EvLogin w)) as [count w1].
      pose proof (targets_loop_delays env (settings cfg) (target_accounts cfg)
                    (0 + count) w1 Hst) as Ht.
      destruct (targets_loop env (settings cfg) (target_accounts cfg)
                  (0 + count) w1).
      simpl in *. by rewrite Ht, Hs.
  - by apply specific_loop_delays.
  - by apply follow_account_followers_delays.
Qed.

(** Without the upper bound, the two followers of the cap are followed with
    no pause between them. *)
Lemma perform_without_delay_bounds_never_pauses_witness :
  count_events is_delay
    (trace (perform friendly_env (OpFollowers unpaced_settings "carol" None)
              empty_world)) = 0 ∧
  successes
    (trace (perform friendly_env (OpFollowers unpaced_settings "carol" None)
              empty_world)) = 2.
Proof.
  split; [|reflexivity].
  rewrite (perform_without_delay_bounds_never_pauses friendly_env
             (OpFollowers unpaced_settings "carol" None) empty_world);
    [reflexivity | by right].
Defined.
